(** * bbc-scraper: a shallow embedding of the two scraper scripts

    The repository holds two versions of one scraping job:

    - [src/app/index.js]      (module [IndexJs] below), and
    - [src/unnamed/part_000]  (module [Part000] below).

    Both connect to a datastore, sweep the rows tagged ['BBC News'], load the
    listing page, collect candidate entries and visit every entry inside a
    bounded retry loop, inserting one row per entry.

    Conventions of the embedding.

    - A JavaScript string is a [string]: a sequence of code units, here
      restricted to the code units 0..255 (the Latin-1 range).
    - A value that may be a string, [null] or [undefined] is a [JsVal]; the
      result of a DOM getter that is a string or [null] is an [option].
    - A call that may throw returns [Res A]: [Ok a] or [Threw].
    - What the outside world answers (the rendered pages, the clock, the
      random generator, the id generator, the datastore's verdict on a
      statement) is an explicit argument. *)

From Stdlib Require Import String Ascii List ZArith NArith Bool Lia.
Import ListNotations.

Local Open Scope list_scope.
Local Open Scope string_scope.

(* ================================================================== *)
(** * JavaScript strings *)
(* ================================================================== *)

Module JsString.

(** Truthiness of a string: only the empty string is falsy. *)
Definition truthy (s : string) : bool :=
  match s with
  | EmptyString => false
  | String _ _ => true
  end.

(** [s.split(sep)] for a separator of one code unit.  The result is never
    empty: [''.split(' ')] is [['']], and two adjacent separators enclose
    an empty token. *)
Fixpoint split (sep : ascii) (s : string) : list string :=
  match s with
  | EmptyString => [EmptyString]
  | String c rest =>
      if Ascii.eqb c sep then EmptyString :: split sep rest
      else match split sep rest with
           | [] => [String c EmptyString]
           | tok :: toks => String c tok :: toks
           end
  end.

(** [arr.slice(0, n)]. *)
Definition slice0 {A} (n : nat) (l : list A) : list A := firstn n l.

(** [arr.join(sep)]. *)
Definition join (sep : string) (l : list string) : string :=
  String.concat sep l.

(** [s.slice(-n)]: the last [n] code units, the whole string when it is
    shorter. *)
Definition slice_last (n : nat) (s : string) : string :=
  substring (String.length s - n) n s.

Definition is_upper_ascii (c : ascii) : bool :=
  let n := nat_of_ascii c in (65 <=? n)%nat && (n <=? 90)%nat.

(** The upper-case letters of the Latin-1 supplement: U+00C0..U+00DE
    without the multiplication sign U+00D7. *)
Definition is_upper_latin1 (c : ascii) : bool :=
  let n := nat_of_ascii c in
  (192 <=? n)%nat && (n <=? 222)%nat && negb (n =? 215)%nat.

Definition lower_char (c : ascii) : ascii :=
  if is_upper_ascii c || is_upper_latin1 c
  then ascii_of_nat (nat_of_ascii c + 32)
  else c.

(** [s.toLowerCase()] on code units 0..255. *)
Fixpoint toLowerCase (s : string) : string :=
  match s with
  | EmptyString => EmptyString
  | String c rest => String (lower_char c) (toLowerCase rest)
  end.

(** The character class [a-z]. *)
Definition is_a_z (c : ascii) : bool :=
  let n := nat_of_ascii c in (97 <=? n)%nat && (n <=? 122)%nat.

(** [s.replace(/[^a-z]/g, '')]. *)
Fixpoint strip_non_a_z (s : string) : string :=
  match s with
  | EmptyString => EmptyString
  | String c rest =>
      if is_a_z c then String c (strip_non_a_z rest) else strip_non_a_z rest
  end.

(** White space as [trim] sees it, within code units 0..255: TAB, LF, VT,
    FF, CR, SPACE and NBSP. *)
Definition is_space (c : ascii) : bool :=
  let n := nat_of_ascii c in
  ((9 <=? n)%nat && (n <=? 13)%nat) || (n =? 32)%nat || (n =? 160)%nat.

Fixpoint trim_start (s : string) : string :=
  match s with
  | EmptyString => EmptyString
  | String c rest => if is_space c then trim_start rest else s
  end.

(** Drops trailing white space: a white-space code unit is kept only when
    something is kept after it. *)
Fixpoint trim_end (s : string) : string :=
  match s with
  | EmptyString => EmptyString
  | String c rest =>
      match trim_end rest with
      | EmptyString => if is_space c then EmptyString else String c EmptyString
      | kept => String c kept
      end
  end.

(** [s.trim()]. *)
Definition trim (s : string) : string := trim_end (trim_start s).

(** Digits of [Number.prototype.toString(36)]. *)
Definition digit36 (d : N) : ascii :=
  if (d <? 10)%N then ascii_of_N (48 + d) else ascii_of_N (87 + d).

Fixpoint to36_digits (fuel : nat) (n : N) (acc : string) : string :=
  match fuel with
  | O => acc
  | S fuel' =>
      let acc' := String (digit36 (n mod 36)) acc in
      if (n / 36 =? 0)%N then acc' else to36_digits fuel' (n / 36) acc'
  end.

(** [n.toString(36)] for a non-negative integer [n].  One digit is
    produced per round, and [n] has at most [log2 n + 1] of them. *)
Definition toString36 (n : N) : string :=
  to36_digits (S (N.to_nat (N.log2 n))) n EmptyString.

(** [s.includes(t)]: [t] occurs in [s]. *)
Definition includes (s t : string) : Prop :=
  exists before after, s = before ++ t ++ after.

End JsString.

(* ================================================================== *)
(** * JavaScript values, dates and exceptions *)
(* ================================================================== *)

(** The values the scripts store in the fields of an article object. *)
Inductive JsVal : Type :=
| Undefined
| Null
| Str (s : string).

(** The result of a call that may throw. *)
Inductive Res (A : Type) : Type :=
| Ok (a : A)
| Threw.
Arguments Ok {A} a.
Arguments Threw {A}.

Module Js.

(** [ToBoolean]. *)
Definition truthy (v : JsVal) : bool :=
  match v with
  | Str s => JsString.truthy s
  | _ => false
  end.

(** [v !== null]. *)
Definition not_null (v : JsVal) : bool :=
  match v with
  | Null => false
  | _ => true
  end.

(** [${v}] inside a template literal. *)
Definition interp (v : JsVal) : string :=
  match v with
  | Undefined => "undefined"
  | Null => "null"
  | Str s => s
  end.

(** [a || b]. *)
Definition or (a b : JsVal) : JsVal := if truthy a then a else b.

(** A DOM getter's answer (a string or [null]) as a value. *)
Definition of_attr (o : option string) : JsVal :=
  match o with
  | Some s => Str s
  | None => Null
  end.

(** [e?.prop] for a string property: [undefined] when [e] is missing. *)
Definition of_optional (o : option string) : JsVal :=
  match o with
  | Some s => Str s
  | None => Undefined
  end.

Definition is_string (v : JsVal) : Prop := exists s, v = Str s.

(** The receiver of a string method call: a [TypeError] on [undefined]
    and [null]. *)
Definition receiver (v : JsVal) : Res string :=
  match v with
  | Str s => Ok s
  | _ => Threw
  end.

End Js.

Module JsDate.

Local Open Scope Z_scope.

(** A time value: milliseconds since the epoch, [None] for NaN. *)
Definition TimeValue : Type := option Z.

Definition msPerDay : Z := 86400000.

(** The right-most [width] decimal digits of [n], most significant first. *)
Fixpoint dec_digits (width : nat) (n : Z) (acc : string) : string :=
  match width with
  | O => acc
  | S w =>
      dec_digits w (n / 10) (String (ascii_of_N (48 + Z.to_N (n mod 10))) acc)
  end.

Definition pad (width : nat) (n : Z) : string :=
  dec_digits width n EmptyString.

(** Year, month and day of the proleptic Gregorian calendar for a day
    number counted from 1970-01-01. *)
Definition civil_from_days (days : Z) : Z * Z * Z :=
  let z := days + 719468 in
  let era := z / 146097 in
  let doe := z - era * 146097 in
  let yoe := (doe - doe / 1460 + doe / 36524 - doe / 146096) / 365 in
  let doy := doe - (365 * yoe + yoe / 4 - yoe / 100) in
  let mp := (5 * doy + 2) / 153 in
  let d := doy - (153 * mp + 2) / 5 + 1 in
  let m := if mp <? 10 then mp + 3 else mp - 9 in
  let y := yoe + era * 400 + (if m <=? 2 then 1 else 0) in
  (y, m, d).

(** The year of an ISO string: four digits within 0..9999, otherwise a
    sign and six digits. *)
Definition iso_year (y : Z) : string :=
  if (0 <=? y) && (y <=? 9999) then pad 4 y
  else let sign := if y <? 0 then "-" else "+" in
       (sign ++ pad 6 (Z.abs y))%string.

(** The ISO string [YYYY-MM-DDTHH:mm:ss.sssZ] of a finite time value. *)
Definition iso_of_ms (t : Z) : string :=
  let days := t / msPerDay in
  let ms := t mod msPerDay in
  let '(y, m, d) := civil_from_days days in
  (iso_year y ++ "-" ++ pad 2 m ++ "-" ++ pad 2 d ++ "T"
   ++ pad 2 (ms / 3600000) ++ ":" ++ pad 2 (ms / 60000 mod 60) ++ ":"
   ++ pad 2 (ms / 1000 mod 60) ++ "." ++ pad 3 (ms mod 1000) ++ "Z")%string.

(** [date.toISOString()]: a [RangeError] on an invalid date. *)
Definition toISOString (d : TimeValue) : Res string :=
  match d with
  | Some t => Ok (iso_of_ms t)
  | None => Threw
  end.

(** [new Date(v)] for [v] a string or [null]: [null] converts to the
    number 0, the epoch; a string goes through the engine's parser. *)
Definition of_attr (parse : string -> TimeValue) (raw : option string)
  : TimeValue :=
  match raw with
  | None => Some 0
  | Some s => parse s
  end.

End JsDate.

(* ================================================================== *)
(** * The collaborators: document, article object, datastore *)
(* ================================================================== *)

(** A DOM element, as far as the scripts look at it. *)
Unset Elimination Schemes.
Inductive Element : Type :=
  mkElement {
      innerText : string;
      src : string;
      getAttribute : string -> option string;
      querySelector : string -> option Element
    }.
Set Elimination Schemes.

(** A loaded document answers a selector with the matching elements in
    document order; [Threw] when the evaluation itself fails. *)
Definition Page : Type := string -> Res (list Element).

Definition blank_page : Page := fun _ => Ok [].

(** The article object: the listing gives it [headline], [link] and [slug],
    the other fields are attached while the entry is visited. *)
Module Article.
Record t : Type :=
  mk {
      headline : string;
      link : string;
      slug : string;
      body : JsVal;
      summary : JsVal;
      author : JsVal;
      media : JsVal;
      date : JsVal;
      resource : JsVal;
      id : JsVal
    }.

Definition candidate (headline link slug : string) : t :=
  mk headline link slug
     Undefined Undefined Undefined Undefined Undefined Undefined Undefined.

Definition set_body (v : JsVal) (a : t) : t :=
  mk (headline a) (link a) (slug a)
     v (summary a) (author a) (media a) (date a) (resource a) (id a).
Definition set_summary (v : JsVal) (a : t) : t :=
  mk (headline a) (link a) (slug a)
     (body a) v (author a) (media a) (date a) (resource a) (id a).
Definition set_author (v : JsVal) (a : t) : t :=
  mk (headline a) (link a) (slug a)
     (body a) (summary a) v (media a) (date a) (resource a) (id a).
Definition set_media (v : JsVal) (a : t) : t :=
  mk (headline a) (link a) (slug a)
     (body a) (summary a) (author a) v (date a) (resource a) (id a).
Definition set_date (v : JsVal) (a : t) : t :=
  mk (headline a) (link a) (slug a)
     (body a) (summary a) (author a) (media a) v (resource a) (id a).
Definition set_resource (v : JsVal) (a : t) : t :=
  mk (headline a) (link a) (slug a)
     (body a) (summary a) (author a) (media a) (date a) v (id a).
Definition set_id (v : JsVal) (a : t) : t :=
  mk (headline a) (link a) (slug a)
     (body a) (summary a) (author a) (media a) (date a) (resource a) v.

(** Every field holds a string. *)
Definition complete (a : t) : Prop :=
  Js.is_string (body a) /\ Js.is_string (summary a) /\
  Js.is_string (author a) /\ Js.is_string (media a) /\
  Js.is_string (date a) /\ Js.is_string (resource a) /\
  Js.is_string (id a).
End Article.

(** A row of the table ["Article"], in the column order of the INSERT. *)
Module Row.
Record t : Type :=
  mk {
      id : JsVal;
      slug : JsVal;
      headline : JsVal;
      summary : JsVal;
      body : JsVal;
      author : JsVal;
      resource : JsVal;
      media : JsVal;
      link : JsVal;
      date : JsVal
    }.

(** The parameter list of the INSERT statement of both scripts. *)
Definition of_article (a : Article.t) : t :=
  mk (Article.id a)
     (Str (Article.slug a))
     (Str (Article.headline a))
     (Js.or (Article.summary a) (Str ""))
     (Js.or (Article.body a) (Str ""))
     (Article.author a)
     (Article.resource a)
     (Article.media a)
     (Str (Article.link a))
     (Article.date a).

(** [resource = $1]: a row whose resource is not a string never matches. *)
Definition tagged (tag : string) (r : t) : bool :=
  match resource r with
  | Str s => String.eqb s tag
  | _ => false
  end.
End Row.

Definition Datastore : Type := list Row.t.

(** [DELETE FROM "Article" WHERE resource = $1]. *)
Definition sweep (tag : string) (db : Datastore) : Datastore :=
  filter (fun r => negb (Row.tagged tag r)) db.

(** What the world answers during one attempt at one entry. *)
Record Pruned : Type :=
  mkPruned {
      pruned_text : string;
      pruned_dom : Page
    }.

Record AttemptEnv : Type :=
  mkAttemptEnv {
      (** does [page.goto(article.link, ...)] resolve *)
      goto_ok : bool;
      (** the document once loaded *)
      dom : Page;
      (** the first [article] element's [innerText], and the document, once
          the descendants matching the given selectors are removed *)
      after_removal : list string -> Pruned;
      (** the id [cuid()] returns *)
      cuid : string;
      (** the time value of [new Date()] *)
      clock : Z;
      (** does the INSERT statement succeed *)
      insert_ok : bool
    }.

(* ================================================================== *)
(** * Effects: a state and exception monad *)
(* ================================================================== *)

(** The state an attempt works on: the article object being filled in, the
    datastore, and the document of the shared page. *)
Record St : Type :=
  mkSt {
      art : Article.t;
      store : Datastore;
      doc : Page
    }.

Definition M (A : Type) : Type := St -> St * Res A.

Definition ret {A} (a : A) : M A := fun s => (s, Ok a).

Definition bind {A B} (m : M A) (k : A -> M B) : M B :=
  fun s =>
    match m s with
    | (s', Ok a) => k a s'
    | (s', Threw) => (s', Threw)
    end.

Definition throw {A} : M A := fun s => (s, Threw).

(** [try { m } catch { h }]: what [m] did to the state before it threw
    stays done. *)
Definition try_catch {A} (m h : M A) : M A :=
  fun s =>
    match m s with
    | (s', Ok a) => (s', Ok a)
    | (s', Threw) => h s'
    end.

Definition lift {A} (r : Res A) : M A := fun s => (s, r).

Definition get_article : M Article.t := fun s => (s, Ok (art s)).

Definition update (f : Article.t -> Article.t) : M unit :=
  fun s => (mkSt (f (art s)) (store s) (doc s), Ok tt).

Declare Scope js_scope.
Delimit Scope js_scope with js.
Notation "x <- m ;; k" := (bind m (fun x => k))
  (at level 61, m at next level, right associativity) : js_scope.
Notation "m ;; k" := (bind m (fun _ => k))
  (at level 61, right associativity) : js_scope.

(** [page.goto(url, ...)]: the page shows the new document, or the call
    throws. *)
Definition goto (env : AttemptEnv) : M unit :=
  fun s =>
    if goto_ok env then (mkSt (art s) (store s) (dom env), Ok tt)
    else (s, Threw).

(** [page.$eval(selector, f)]: [f] on the first match; throws when nothing
    matches. *)
Definition page_eval {A} (selector : string) (f : Element -> A) : M A :=
  fun s =>
    match doc s selector with
    | Ok (el :: _) => (s, Ok (f el))
    | Ok [] => (s, Threw)
    | Threw => (s, Threw)
    end.

(** [page.$$eval(selector, f)]: [f] on all matches, none included. *)
Definition page_eval_all {A} (selector : string) (f : list Element -> A)
  : M A :=
  fun s =>
    match doc s selector with
    | Ok els => (s, Ok (f els))
    | Threw => (s, Threw)
    end.

(** [client.query('INSERT INTO "Article" ...', row)]. *)
Definition insert (env : AttemptEnv) (r : Row.t) : M unit :=
  fun s =>
    if insert_ok env then (mkSt (art s) (store s ++ [r])%list (doc s), Ok tt)
    else (s, Threw).

Definition default_image : string :=
  "https://news.bbc.co.uk/nol/shared/img/bbc_news_120x60.gif".

(** A line feed, the white space [innerText] puts between blocks. *)
Definition line_feed : string := String (ascii_of_nat 10) EmptyString.

(** The double quote, for the selectors that hold one. *)
Definition dquote : string := String (ascii_of_nat 34) EmptyString.

Definition maxAttempts : nat := 3.

(* ================================================================== *)
(** * The per-entry retry loop and the batch loop (both scripts) *)
(* ================================================================== *)

(** The variables of the [while] loop next to the state it works on. *)
Record LoopSt : Type :=
  mkLoopSt {
      st : St;
      success : bool;
      attempts : nat
    }.

(** What is known about an entry when its loop is left. *)
Record Visit : Type :=
  mkVisit {
      visited : Article.t;
      succeeded : bool;
      attempts_made : nat
    }.

Section RetryLoop.

(** The [try] block of the loop: one attempt at the entry. *)
Variable attempt : AttemptEnv -> M unit.

(** The world's answers to the successive attempts at this entry. *)
Variable env : nat -> AttemptEnv.

(** [while (!success && attempts < maxAttempts)]. *)
Definition loop_cond (l : LoopSt) : bool :=
  negb (success l) && (attempts l <? maxAttempts)%nat.

(** One round: [attempts++], then the [try] block followed by
    [success = true], or the [catch], which only logs. *)
Definition loop_body (l : LoopSt) : LoopSt :=
  let n := S (attempts l) in
  match attempt (env (attempts l)) (st l) with
  | (s', Ok _) => mkLoopSt s' true n
  | (s', Threw) => mkLoopSt s' (success l) n
  end.

(** The loop, cut off after [fuel] rounds: [None] when the condition still
    holds then. *)
Fixpoint while_loop (fuel : nat) (l : LoopSt) : option LoopSt :=
  if loop_cond l then
    match fuel with
    | O => None
    | S fuel' => while_loop fuel' (loop_body l)
    end
  else Some l.

(** The body of the [for ... of] loop for one entry. *)
Definition visit (fuel : nat) (a : Article.t) (db : Datastore) (pg : Page)
  : option LoopSt :=
  while_loop fuel (mkLoopSt (mkSt a db pg) false 0).

End RetryLoop.

Section Batch.

Variable attempt : AttemptEnv -> M unit.

(** The answers to attempt [k] at entry [i]. *)
Variable envs : nat -> nat -> AttemptEnv.

(** [for (const article of articles)], from entry number [i] on.  The
    article objects are updated in place, so the list of visits holds the
    objects as the snapshot will see them. *)
Fixpoint for_each (fuel : nat) (i : nat) (arts : list Article.t)
         (db : Datastore) (pg : Page)
  : option (list Visit * Datastore * Page) :=
  match arts with
  | [] => Some ([], db, pg)
  | a :: rest =>
      match visit attempt (envs i) fuel a db pg with
      | None => None
      | Some l =>
          match for_each fuel (S i) rest (store (st l)) (doc (st l)) with
          | None => None
          | Some (vs, db', pg') =>
              Some (mkVisit (art (st l)) (success l) (attempts l) :: vs,
                    db', pg')
          end
      end
  end.

End Batch.

(** What the world answers during one run of the job. *)
Record World : Type :=
  mkWorld {
      connect_ok : bool;
      sweep_ok : bool;
      browser_ok : bool;
      listing_goto_ok : bool;
      (** [page.isVisible('#bbccookies-continue-button')] *)
      cookie_visible : Res bool;
      cookie_click_ok : bool;
      listing_dom : Page;
      (** [Date.now()] at the [i]-th call of [generateSlug] *)
      slug_clock : nat -> N;
      (** [Math.random().toString(36)] at the [i]-th call of [generateSlug] *)
      slug_random : nat -> string;
      visits : nat -> nat -> AttemptEnv;
      write_ok : bool
    }.

(** Where a run ended. *)
Inductive Outcome : Type :=
| ConnectFailed
| SweepFailed
| BrowserFailed
| ListingLoadFailed
| CollectFailed
| NoArticles
| SnapshotFailed
| Completed.

Record JobResult : Type :=
  mkJobResult {
      final_db : Datastore;
      (** the content of [bbc-articles.json] when this run wrote it *)
      snapshot : option (list Article.t);
      outcome : Outcome
    }.

(** [items.map(f)] for a callback that may throw. *)
Fixpoint map_res {A B} (f : A -> Res B) (l : list A) : Res (list B) :=
  match l with
  | [] => Ok []
  | x :: rest =>
      match f x with
      | Threw => Threw
      | Ok y =>
          match map_res f rest with
          | Threw => Threw
          | Ok ys => Ok (y :: ys)
          end
      end
  end.

(** [arr.filter(x => x !== null)] on an array of objects and [null]s. *)
Fixpoint filter_non_null {A} (l : list (option A)) : list A :=
  match l with
  | [] => []
  | Some x :: rest => x :: filter_non_null rest
  | None :: rest => filter_non_null rest
  end.

(** [arr.map(f)] with the position of the call among all calls. *)
Fixpoint map_indexed {A B} (f : nat -> A -> B) (i : nat) (l : list A)
  : list B :=
  match l with
  | [] => []
  | x :: rest => f i x :: map_indexed f (S i) rest
  end.

(* ================================================================== *)
(** * src/app/index.js *)
(* ================================================================== *)

Module IndexJs.

Local Open Scope js_scope.

(** [processBody(body, link, resource = 'BBC News')]. *)
Definition processBody (body link : JsVal) (resource : string) : string :=
  let formattedBody := "" in
  let formattedBody :=
    if Js.not_null body
    then formattedBody ++ "<p>" ++ Js.interp body
         ++ "</p><br><br><ul><li><a href='" ++ Js.interp link
         ++ "'>Visit " ++ resource ++ "</a></li></ul>"
    else formattedBody in
  if Js.truthy link && negb (Js.truthy body)
  then formattedBody ++ "<br><br><ul><li><a href='" ++ Js.interp link
       ++ "'>Visit " ++ resource ++ "</a></li></ul>"
  else if negb (Js.truthy link) && negb (Js.truthy body)
       then ""
       else formattedBody.

(** The slug of the listing callback:
    [headline.split(' ').slice(0, 3).join('').toLowerCase()
             .replace(/[^a-z]/g, '')]. *)
Definition slug_of (headline : string) : string :=
  JsString.strip_non_a_z
    (JsString.toLowerCase
       (JsString.join ""
          (JsString.slice0 3 (JsString.split " " headline)))).

(** The selector of the headline element inside a card; [dquote] is the
    double quote of the attribute value. *)
Definition card_headline_selector : string :=
  "h2[data-testid=" ++ dquote ++ "card-headline" ++ dquote ++ "]".

(** The callback of the listing's [items.map]: it throws on an item
    without an [href] and on an item without a headline element. *)
Definition collect_item (item : Element) : Res Article.t :=
  let headline :=
    option_map (fun h => JsString.trim (innerText h))
               (querySelector item card_headline_selector) in
  match getAttribute item "href" with
  | None => Threw
  | Some href =>
      let link := "https://www.bbc.com" ++ JsString.trim href in
      match headline with
      | None => Threw
      | Some h => Ok (Article.candidate h link (slug_of h))
      end
  end.

Definition listing_selector : string :=
  "div[data-testid^=" ++ dquote ++ "london-card" ++ dquote
  ++ "] a[data-testid=" ++ dquote ++ "internal-link" ++ dquote ++ "]".

(** [page.$$eval(listing_selector, items => items.map(...))]. *)
Definition collect (listing : Page) : Res (list Article.t) :=
  match listing listing_selector with
  | Threw => Threw
  | Ok items => map_res collect_item items
  end.

(** [extractMainImage(page)]. *)
Definition extractMainImage : M string :=
  try_catch (page_eval "img" src) (ret default_image).

Definition elementsToRemove : list string :=
  [ ".advertisement"; ".ad-container"; ".ad"; ".widget";
    "[role=" ++ dquote ++ "list" ++ dquote ++ "]"; "figcaption";
    ".ssrcss-1ik71mx-MetadataStripContainer";
    ".ssrcss-tvuve5-StyledFigureCopyright" ].

(** [page.$eval('article', el => { ...remove...; return
    el.innerText.trim() })]: the removal changes the document every later
    query of the attempt sees. *)
Definition eval_article (env : AttemptEnv) : M string :=
  fun s =>
    match doc s "article" with
    | Ok (_ :: _) =>
        let p := after_removal env elementsToRemove in
        (mkSt (art s) (store s) (pruned_dom p),
         Ok (JsString.trim (pruned_text p)))
    | Ok [] => (s, Threw)
    | Threw => (s, Threw)
    end.

(** The summary expression: the [if (article.body)] and the value either
    branch assigns. *)
Definition summary_of (body : JsVal) : Res string :=
  if Js.truthy body
  then
    match Js.receiver body with
    | Threw => Threw
    | Ok b =>
        Ok (JsString.join " " (JsString.slice0 25 (JsString.split " " b))
            ++ "...")
    end
  else Ok "".

(** The summary statement. *)
Definition summarize : M unit :=
  a <- get_article ;;
  text <- lift (summary_of (Article.body a)) ;;
  update (Article.set_summary (Str text)).

Section Attempt.

(** The engine's date parser, [NaN] being [None]. *)
Variable parse : string -> JsDate.TimeValue.

(** The date statement with its [catch]. *)
Definition extract_date : M unit :=
  try_catch
    (rawDate <- page_eval "time" (fun el => getAttribute el "datetime") ;;
     let date := JsDate.of_attr parse rawDate in
     iso <- lift (JsDate.toISOString date) ;;
     update (Article.set_date (Str iso)))
    (update (Article.set_date (Str ""))).

(** The [try] block of the retry loop, up to [success = true]. *)
Definition attempt (env : AttemptEnv) : M unit :=
  goto env ;;
  try_catch
    (text <- eval_article env ;; update (Article.set_body (Str text)))
    (update (Article.set_body (Str ""))) ;;
  summarize ;;
  a <- get_article ;;
  update (Article.set_body
            (Str (processBody (Article.body a) (Str (Article.link a))
                              "BBC News"))) ;;
  try_catch
    (name <- page_eval "span.sc-2b5e3b35-7.bZCrck"
                       (fun el => JsString.trim (innerText el)) ;;
     update (Article.set_author (Str name)))
    (update (Article.set_author (Str "See article for details"))) ;;
  try_catch
    (url <- extractMainImage ;; update (Article.set_media (Str url)))
    (update (Article.set_media (Str default_image))) ;;
  extract_date ;;
  update (Article.set_resource (Str "BBC News")) ;;
  update (Article.set_id (Str (cuid env))) ;;
  a <- get_article ;;
  insert env (Row.of_article a).

(** Loading the listing page: the [goto] and the cookie banner, all
    inside one [try]. *)
Definition load_listing (w : World) : bool :=
  listing_goto_ok w &&
  match cookie_visible w with
  | Threw => false
  | Ok true => cookie_click_ok w
  | Ok false => true
  end.

(** The whole job on the datastore [db]. *)
Definition job (fuel : nat) (w : World) (db : Datastore)
  : option JobResult :=
  if negb (connect_ok w) then Some (mkJobResult db None ConnectFailed)
  else if negb (sweep_ok w) then Some (mkJobResult db None SweepFailed)
  else
    let db := sweep "BBC News" db in
    if negb (browser_ok w) then Some (mkJobResult db None BrowserFailed)
    else if negb (load_listing w)
    then Some (mkJobResult db None ListingLoadFailed)
    else
      match collect (listing_dom w) with
      | Threw => Some (mkJobResult db None CollectFailed)
      | Ok articles =>
          match for_each attempt (visits w) fuel 0 articles db
                         (listing_dom w) with
          | None => None
          | Some (vs, db', _) =>
              if write_ok w
              then Some (mkJobResult db' (Some (map visited vs)) Completed)
              else Some (mkJobResult db' None SnapshotFailed)
          end
      end.

End Attempt.

End IndexJs.


(* ================================================================== *)
(** * src/unnamed/part_000 *)
(* ================================================================== *)

Module Part000.

Local Open Scope js_scope.

(** [processBody(paragraphs, link, resource = 'BBC News')]. *)
Definition processBody (paragraphs : list string) (link : JsVal)
           (resource : string) : string :=
  let formattedBody :=
    JsString.join "" (map (fun p => "<p>" ++ p ++ "</p>") paragraphs) in
  formattedBody ++ "<br><br><ul><li><a href='" ++ Js.interp link
  ++ "'>Visit " ++ resource ++ "</a></li></ul>".

(** [extractMainImage(page)]. *)
Definition extractMainImage : M string :=
  try_catch (page_eval "img" src) (ret default_image).

(** [extractMedia(page)]. *)
Definition extractMedia : M JsVal :=
  try_catch
    (mediaUrl <- page_eval "img.p_holding_image" (fun img => Str (src img)) ;;
     mediaUrl <-
       (if negb (Js.truthy mediaUrl)
        then page_eval "video"
               (fun video =>
                  Js.or (Js.of_attr (getAttribute video "poster"))
                        (Js.of_optional
                           (option_map src (querySelector video "img"))))
        else ret mediaUrl) ;;
     let mediaUrl :=
       if negb (Js.truthy mediaUrl) then Str default_image else mediaUrl in
     ret mediaUrl)
    (ret (Str default_image)).

(** [baseSlug] of [generateSlug]. *)
Definition baseSlug (headline : string) : string :=
  JsString.strip_non_a_z
    (JsString.toLowerCase
       (JsString.join ""
          (JsString.slice0 3 (JsString.split " " headline)))).

(** [uniquePart] of [generateSlug], for [now] the value of [Date.now()]
    and [random36] the string [Math.random().toString(36)]. *)
Definition uniquePart (now : N) (random36 : string) : string :=
  JsString.slice_last 5 (JsString.toString36 now)
  ++ JsString.slice_last 5 random36.

(** [generateSlug(headline, link)]; the link is not used. *)
Definition generateSlug (now : N) (random36 : string)
           (headline link : string) : string :=
  baseSlug headline ++ "-" ++ uniquePart now random36.

(** A candidate of the listing, before it has a slug. *)
Record Entry : Type :=
  mkEntry {
      headline : string;
      link : string
    }.

Definition card_headline_selector : string :=
  "h2[data-testid=" ++ dquote ++ "card-headline" ++ dquote ++ "]".

(** The callback of the listing's [items.map]: [null] for an item without
    a headline element or without an [href]. *)
Definition collect_item (item : Element) : option Entry :=
  let headlineElement := querySelector item card_headline_selector in
  let linkElement := getAttribute item "href" in
  match headlineElement, linkElement with
  | Some h, Some href =>
      if JsString.truthy href
      then Some (mkEntry (JsString.trim (innerText h))
                         ("https://www.bbc.com" ++ JsString.trim href))
      else None
  | _, _ => None
  end.

Definition listing_selector : string :=
  "div[data-testid^=" ++ dquote ++ "london-card" ++ dquote
  ++ "], div[data-testid^=" ++ dquote ++ "undefined-grid" ++ dquote
  ++ "] div[data-testid^=" ++ dquote ++ "edinburgh-card" ++ dquote
  ++ "] a[data-testid=" ++ dquote ++ "internal-link" ++ dquote
  ++ "], div[data-testid^=" ++ dquote ++ "undefined-grid" ++ dquote
  ++ "] div[data-testid^=" ++ dquote ++ "london-article" ++ dquote
  ++ "] a[data-testid=" ++ dquote ++ "internal-link" ++ dquote ++ "]".

(** [page.$$eval(listing_selector, items =>
    items.map(...).filter(article => article !== null))]. *)
Definition collect (listing : Page) : Res (list Entry) :=
  match listing listing_selector with
  | Threw => Threw
  | Ok items => Ok (filter_non_null (map collect_item items))
  end.

(** [articles.map(article => ({...article, slug: generateSlug(...)}))],
    the [i]-th call reading the clock and the generator of the world. *)
Definition articlesWithSlugs (w : World) (articles : list Entry)
  : list Article.t :=
  map_indexed
    (fun i e =>
       Article.candidate
         (headline e) (link e)
         (generateSlug (slug_clock w i) (slug_random w i)
                       (headline e) (link e)))
    0 articles.

Definition text_block_selector : string :=
  "div[data-component=" ++ dquote ++ "text-block" ++ dquote ++ "] p".

(** The summary expression:
    [paragraphs.join(' ').split(' ').slice(0, 25).join(' ') + '...']. *)
Definition summary_of (paragraphs : list string) : string :=
  JsString.join " "
    (JsString.slice0 25 (JsString.split " " (JsString.join " " paragraphs)))
  ++ "...".

(** The [try] block of the retry loop, up to [success = true]. *)
Definition attempt (env : AttemptEnv) : M unit :=
  goto env ;;
  try_catch
    (paragraphs <- page_eval_all text_block_selector
                     (map (fun p => JsString.trim (innerText p))) ;;
     a <- get_article ;;
     update (Article.set_body
               (Str (processBody paragraphs (Str (Article.link a))
                                 "BBC News"))) ;;
     update (Article.set_summary (Str (summary_of paragraphs))))
    (update (Article.set_body (Str "")) ;;
     update (Article.set_summary (Str ""))) ;;
  try_catch
    (name <- page_eval "div > span.sc-2b5e3b35-7.bZCrck"
                       (fun el => JsString.trim (innerText el)) ;;
     update (Article.set_author (Str name)))
    (update (Article.set_author (Str "See article for deatails"))) ;;
  try_catch
    (url <- extractMainImage ;; update (Article.set_media (Str url)))
    (update (Article.set_media (Str default_image))) ;;
  update (Article.set_resource (Str "BBC News")) ;;
  update (Article.set_id (Str (cuid env))) ;;
  iso <- lift (JsDate.toISOString (Some (clock env))) ;;
  update (Article.set_date (Str iso)) ;;
  a <- get_article ;;
  insert env (Row.of_article a).

(** The whole job on the datastore [db]. *)
Definition job (fuel : nat) (w : World) (db : Datastore)
  : option JobResult :=
  if negb (connect_ok w) then Some (mkJobResult db None ConnectFailed)
  else if negb (sweep_ok w) then Some (mkJobResult db None SweepFailed)
  else
    let db := sweep "BBC News" db in
    if negb (browser_ok w) then Some (mkJobResult db None BrowserFailed)
    else if negb (listing_goto_ok w)
    then Some (mkJobResult db None ListingLoadFailed)
    else
      match collect (listing_dom w) with
      | Threw => Some (mkJobResult db None CollectFailed)
      | Ok articles =>
          if (List.length articles =? 0)%nat
          then Some (mkJobResult db None NoArticles)
          else
            match for_each attempt (visits w) fuel 0
                           (articlesWithSlugs w articles) db
                           (listing_dom w) with
            | None => None
            | Some (vs, db', _) =>
                if write_ok w
                then Some (mkJobResult db' (Some (map visited vs)) Completed)
                else Some (mkJobResult db' None SnapshotFailed)
            end
      end.

End Part000.


(* ================================================================== *)
(** * Vocabulary of the specification *)
(* ================================================================== *)

Module Spec.

(** The citation block: the fixed "visit source" list holding the link. *)
Definition citation (link resource : string) : string :=
  "<br><br><ul><li><a href='" ++ link ++ "'>Visit " ++ resource
  ++ "</a></li></ul>".

(** The tokens of a text delimited by the code units [delim] accepts. *)
Fixpoint tokens (delim : ascii -> bool) (s : string) : list string :=
  match s with
  | EmptyString => [EmptyString]
  | String c rest =>
      if delim c then EmptyString :: tokens delim rest
      else match tokens delim rest with
           | [] => [String c EmptyString]
           | tok :: toks => String c tok :: toks
           end
  end.

(** The summary as the specification words it: the first 25
    whitespace-delimited tokens joined with spaces, then the ellipsis; empty
    for an empty body. *)
Definition summary (body : string) : string :=
  if JsString.truthy body
  then JsString.join " " (firstn 25 (tokens JsString.is_space body)) ++ "..."
  else "".

(** The value of a base-36 digit. *)
Definition digit_value (c : ascii) : N :=
  let n := N_of_ascii c in
  if (n <? 58)%N then (n - 48)%N else (n - 87)%N.

(** The number a string of base-36 digits denotes, [acc] being the value of
    the digits read so far. *)
Fixpoint of36_from (acc : N) (s : string) : N :=
  match s with
  | EmptyString => acc
  | String c rest => of36_from (acc * 36 + digit_value c)%N rest
  end.

Definition of36 (s : string) : N := of36_from 0 s.

(** The code unit [c] does not occur in [s]. *)
Fixpoint free_of (c : ascii) (s : string) : bool :=
  match s with
  | EmptyString => true
  | String a rest => negb (Ascii.eqb a c) && free_of c rest
  end.

(** A token holds no space. *)
Definition space_free (tok : string) : Prop := free_of " " tok = true.

(** Attempt [k] gets through: the navigation resolves and the INSERT
    succeeds. *)
Definition gets_through (env : AttemptEnv) : Prop :=
  goto_ok env = true /\ insert_ok env = true.

(** What [page.$eval(selector, f)] returns when it does not throw. *)
Definition first_match {A} (pg : Page) (selector : string)
           (f : Element -> A) : option A :=
  match pg selector with
  | Ok (el :: _) => Some (f el)
  | _ => None
  end.

(** The value an extractor's result or, when it failed, its default leaves
    in the field. *)
Definition or_default (d : string) (o : option string) : string :=
  match o with
  | Some v => v
  | None => d
  end.

(** index.js: the document the extractors after the body extractor see: the
    one the removal left when an [article] element was found, the loaded one
    otherwise. *)
Definition index_doc (env : AttemptEnv) : Page :=
  match first_match (dom env) "article" (fun _ => tt) with
  | Some _ => pruned_dom (after_removal env IndexJs.elementsToRemove)
  | None => dom env
  end.

(** index.js: the text the body extractor returns. *)
Definition index_text (env : AttemptEnv) : option string :=
  first_match (dom env) "article"
    (fun _ =>
       JsString.trim (pruned_text (after_removal env IndexJs.elementsToRemove))).

(** index.js: the date string for what the [time] query returned. *)
Definition index_date (parse : string -> JsDate.TimeValue)
           (found : option (option string)) : string :=
  match found with
  | None => ""
  | Some rawDate =>
      match JsDate.of_attr parse rawDate with
      | Some t => JsDate.iso_of_ms t
      | None => ""
      end
  end.

(** index.js: the article object after the field assignments of one attempt
    whose navigation succeeded. *)
Definition index_filled (parse : string -> JsDate.TimeValue)
           (env : AttemptEnv) (a : Article.t) : Article.t :=
  let text := or_default "" (index_text env) in
  Article.mk
    (Article.headline a) (Article.link a) (Article.slug a)
    (Str (IndexJs.processBody (Str text) (Str (Article.link a)) "BBC News"))
    (Str (if JsString.truthy text
          then JsString.join " "
                 (JsString.slice0 25 (JsString.split " " text)) ++ "..."
          else ""))
    (Str (or_default "See article for details"
            (first_match (index_doc env) "span.sc-2b5e3b35-7.bZCrck"
               (fun el => JsString.trim (innerText el)))))
    (Str (or_default default_image (first_match (index_doc env) "img" src)))
    (Str (index_date parse
            (first_match (index_doc env) "time"
               (fun el => getAttribute el "datetime"))))
    (Str "BBC News")
    (Str (cuid env)).

(** part_000: the paragraphs the body extractor returns, [None] when the
    evaluation throws. *)
Definition part_paragraphs (env : AttemptEnv) : option (list string) :=
  match dom env Part000.text_block_selector with
  | Ok els => Some (map (fun p => JsString.trim (innerText p)) els)
  | Threw => None
  end.

(** part_000: the article object after the field assignments of one attempt
    whose navigation succeeded. *)
Definition part_filled (env : AttemptEnv) (a : Article.t) : Article.t :=
  Article.mk
    (Article.headline a) (Article.link a) (Article.slug a)
    (Str (match part_paragraphs env with
          | Some ps => Part000.processBody ps (Str (Article.link a)) "BBC News"
          | None => ""
          end))
    (Str (match part_paragraphs env with
          | Some ps => Part000.summary_of ps
          | None => ""
          end))
    (Str (or_default "See article for deatails"
            (first_match (dom env) "div > span.sc-2b5e3b35-7.bZCrck"
               (fun el => JsString.trim (innerText el)))))
    (Str (or_default default_image (first_match (dom env) "img" src)))
    (Str (JsDate.iso_of_ms (clock env)))
    (Str "BBC News")
    (Str (cuid env)).

Section Outcome.

(** The article an attempt whose navigation succeeded leaves behind. *)
Variable filled : AttemptEnv -> Article.t -> Article.t.

Variable env : nat -> AttemptEnv.

(** What the retry loop leaves of an entry, attempt [k] being the next one
    and [n] attempts being left. *)
Fixpoint outcome_from (n k : nat) (a : Article.t) : Visit :=
  match n with
  | O => mkVisit a false k
  | S n' =>
      if goto_ok (env k)
      then if insert_ok (env k)
           then mkVisit (filled (env k) a) true (S k)
           else outcome_from n' (S k) (filled (env k) a)
      else outcome_from n' (S k) a
  end.

Definition outcome (a : Article.t) : Visit := outcome_from maxAttempts 0 a.

End Outcome.

(** What the batch loop leaves of the entries from number [i] on. *)
Fixpoint outcomes (filled : AttemptEnv -> Article.t -> Article.t)
         (envs : nat -> nat -> AttemptEnv) (i : nat) (arts : list Article.t)
  : list Visit :=
  match arts with
  | [] => []
  | a :: rest =>
      outcome filled (envs i) a :: outcomes filled envs (S i) rest
  end.

(** The shape both scripts' attempts have: nothing happens when the
    navigation fails; otherwise every field is assigned, and the row is
    appended unless the INSERT fails. *)
Definition attempt_shape (attempt : AttemptEnv -> M unit)
           (filled : AttemptEnv -> Article.t -> Article.t)
           (seen : AttemptEnv -> Page) : Prop :=
  forall env a db pg,
    attempt env (mkSt a db pg)
    = if goto_ok env
      then if insert_ok env
           then (mkSt (filled env a)
                      (db ++ [Row.of_article (filled env a)])%list
                      (seen env), Ok tt)
           else (mkSt (filled env a) db (seen env), Threw)
      else (mkSt a db pg, Threw).

(** Two article objects of the same candidate. *)
Definition same_entry (a b : Article.t) : Prop :=
  Article.headline a = Article.headline b
  /\ Article.link a = Article.link b
  /\ Article.slug a = Article.slug b.

(** index.js: the record [r] of the candidate [a] holds a string in every
    field, and the documented value wherever an extractor failed on the
    answers [env]. *)
Definition index_record (env : AttemptEnv) (a r : Article.t) : Prop :=
  same_entry r a
  /\ Article.complete r
  /\ (index_text env = None ->
      Article.body r
      = Str (IndexJs.processBody (Str "") (Str (Article.link a)) "BBC News")
      /\ Article.summary r = Str "")
  /\ (first_match (index_doc env) "span.sc-2b5e3b35-7.bZCrck"
                  (fun el => JsString.trim (innerText el)) = None ->
      Article.author r = Str "See article for details")
  /\ (first_match (index_doc env) "img" src = None ->
      Article.media r = Str default_image)
  /\ (first_match (index_doc env) "time"
                  (fun el => getAttribute el "datetime") = None ->
      Article.date r = Str "")
  /\ Article.resource r = Str "BBC News"
  /\ Article.id r = Str (cuid env).

(** part_000: the same for the other script, whose date is the clock's. *)
Definition part_record (env : AttemptEnv) (a r : Article.t) : Prop :=
  same_entry r a
  /\ Article.complete r
  /\ (part_paragraphs env = None ->
      Article.body r = Str "" /\ Article.summary r = Str "")
  /\ (first_match (dom env) "div > span.sc-2b5e3b35-7.bZCrck"
                  (fun el => JsString.trim (innerText el)) = None ->
      Article.author r = Str "See article for deatails")
  /\ (first_match (dom env) "img" src = None ->
      Article.media r = Str default_image)
  /\ Article.date r = Str (JsDate.iso_of_ms (clock env))
  /\ Article.resource r = Str "BBC News"
  /\ Article.id r = Str (cuid env).

(** index.js: the date of a record against what the [time] query found. A
    [time] element without a [datetime] attribute is left open here. *)
Definition index_date_ok (parse : string -> JsDate.TimeValue)
           (env : AttemptEnv) (r : Article.t) : Prop :=
  match first_match (index_doc env) "time"
                    (fun el => getAttribute el "datetime") with
  | None => Article.date r = Str ""
  | Some None => True
  | Some (Some raw) =>
      match parse raw with
      | Some t => Article.date r = Str (JsDate.iso_of_ms t)
      | None => Article.date r = Str ""
      end
  end.

(** The rows one entry contributes: one when its loop is left with
    [success], none otherwise. *)
Definition rows_of (v : Visit) : list Row.t :=
  if succeeded v then [Row.of_article (visited v)] else [].

(** The rows a batch inserted. *)
Definition inserted (vs : list Visit) : list Row.t := flat_map rows_of vs.

(** The loop state in which the visit [v] leaves the datastore [db] and the
    page [pg]. *)
Definition left_as (v : Visit) (db : Datastore) (pg : Page) : LoopSt :=
  mkLoopSt (mkSt (visited v) (db ++ rows_of v)%list pg)
           (succeeded v) (attempts_made v).

(** What the batch loop owes its candidates [arts], on the answers [envs],
    when it leaves the visits [vs] and turns the datastore [db] into [db']:
    every candidate was visited, in order; none was attempted more than
    [maxAttempts] times; a candidate succeeded exactly when one of its
    attempts got through; and the datastore gained one row per candidate
    that succeeded and nothing else. *)
Definition batch_ok (envs : nat -> nat -> AttemptEnv) (arts : list Article.t)
           (db : Datastore) (vs : list Visit) (db' : Datastore) : Prop :=
  List.length vs = List.length arts
  /\ (forall i v,
         nth_error vs i = Some v ->
         (exists a, nth_error arts i = Some a /\ same_entry (visited v) a)
         /\ (attempts_made v <= maxAttempts)%nat
         /\ (succeeded v = true
             <-> exists k, (k < maxAttempts)%nat /\ gets_through (envs i k))
         /\ (succeeded v = false -> rows_of v = []))
  /\ db' = (db ++ inserted vs)%list.

(** Row [r] carries the tag of this source. *)
Definition of_this_source (r : Row.t) : bool := Row.tagged "BBC News" r.

Definition of_other_source (r : Row.t) : bool := negb (of_this_source r).

(** What a run does to the datastore: nothing when the connection or the
    sweep fails; otherwise the rows of this source are replaced by rows of
    this source that do not depend on what the datastore held. *)
Definition job_shape (job : nat -> World -> Datastore -> option JobResult)
  : Prop :=
  forall fuel w,
    (maxAttempts <= fuel)%nat ->
    exists rows snap out,
      Forall (fun r => of_this_source r = true) rows
      /\ forall db,
          job fuel w db
          = Some (mkJobResult
                    (if connect_ok w && sweep_ok w
                     then (sweep "BBC News" db ++ rows)%list
                     else db)
                    snap out).

End Spec.

(* ================================================================== *)
(** * Concrete documents and worlds *)
(* ================================================================== *)

Module Fixture.

Definition no_attr : string -> option string := fun _ => None.

Definition no_child : string -> option Element := fun _ => None.

(** An element that only has text. *)
Definition text_element (text : string) : Element :=
  mkElement text "" no_attr no_child.

(** A card of the listing: a link around a headline element. *)
Definition card (headline href : string) : Element :=
  mkElement ""
            ""
            (fun name => if String.eqb name "href" then Some href else None)
            (fun selector =>
               if String.eqb selector IndexJs.card_headline_selector
               then Some (text_element headline)
               else None).

(** A [video] element with a poster and no image inside. *)
Definition video_with_poster (poster : string) : Element :=
  mkElement ""
            ""
            (fun name => if String.eqb name "poster" then Some poster else None)
            no_child.

(** A document in which one selector matches the given elements and every
    other selector matches nothing. *)
Definition page_with (selector : string) (els : list Element) : Page :=
  fun asked => if String.eqb asked selector then Ok els else Ok [].

(** Two cards that carry the same headline. *)
Definition twin_cards : list Element :=
  [ card "Storm hits coast" "/news/a1"; card "Storm hits coast" "/news/a2" ].

(** The answers to one attempt: whether the navigation and the INSERT
    succeed, and the document. *)
Definition env (goto_ok insert_ok : bool) (pg : Page) : AttemptEnv :=
  mkAttemptEnv goto_ok pg (fun _ => mkPruned "" pg)
               "cjld2cjxh0000qzrmn831i7rn" 1730563200123 insert_ok.

(** A world in which every collaborator works, the clock stands still and
    the generator repeats itself, around a listing and the answers to the
    attempts. *)
Definition world (listing : Page) (visits : nat -> nat -> AttemptEnv)
  : World :=
  mkWorld true true true true (Ok false) true listing
          (fun _ => 1730563200123%N) (fun _ => "0.4fzyo82mvyr")
          visits true.

(** A date parser that knows one string. *)
Definition parse_one (s : string) : JsDate.TimeValue :=
  if String.eqb s "2024-11-02T16:00:00.123Z" then Some 1730563200123%Z
  else None.

End Fixture.

(* ================================================================== *)
(** * Concrete runs *)
(* ================================================================== *)

Module Run.

(** The candidate the concrete runs visit. *)
Definition storm : Article.t :=
  Article.candidate "Storm hits coast" "https://www.bbc.com/news/a1"
                    "stormhitscoast".

Definition flood : Article.t :=
  Article.candidate "Flood warning" "https://www.bbc.com/news/a2"
                    "floodwarning".

(** Every attempt gets through, on an empty document. *)
Definition all_fine : nat -> AttemptEnv :=
  fun _ => Fixture.env true true blank_page.

(** The navigation always resolves; the INSERT fails once, then works. *)
Definition insert_fails_once : nat -> AttemptEnv :=
  fun k => Fixture.env true (negb (k =? 0)%nat) blank_page.

(** The first entry never loads, the others are fine. *)
Definition first_entry_down : nat -> nat -> AttemptEnv :=
  fun i _ => Fixture.env (negb (i =? 0)%nat) true blank_page.

(** A document whose only media is the poster of a video. *)
Definition poster_only : Page :=
  Fixture.page_with "video"
    [Fixture.video_with_poster "https://ichef.bbci.co.uk/poster.jpg"].

(** A document with a [time] element whose [datetime] the parser knows. *)
Definition dated : Page :=
  Fixture.page_with "time"
    [mkElement ""
               ""
               (fun name =>
                  if String.eqb name "datetime"
                  then Some "2024-11-02T16:00:00.123Z"
                  else None)
               Fixture.no_child].

(** A document with a [time] element that has no [datetime]. *)
Definition undated_time : Page :=
  Fixture.page_with "time" [Fixture.text_element "2 November"].

(** A listing with the two cards of the same headline, as either script
    asks for it. *)
Definition listing : Page :=
  fun asked =>
    if String.eqb asked IndexJs.listing_selector
       || String.eqb asked Part000.listing_selector
    then Ok Fixture.twin_cards
    else Ok [].

(** A world in which everything works and every article page is empty. *)
Definition fine_world : World := Fixture.world listing (fun _ => all_fine).

(** A row of another source, and a row an earlier run of this source
    left. *)
Definition other_row : Row.t :=
  Row.mk (Str "ck0") (Str "ratesheld") (Str "Rates held") (Str "")
         (Str "") (Str "Staff") (Str "Reuters") (Str "") (Str "") (Str "").

Definition stale_row : Row.t :=
  Row.mk (Str "ck1") (Str "oldnews") (Str "Old news") (Str "")
         (Str "") (Str "Staff") (Str "BBC News") (Str "") (Str "") (Str "").

(** A document whose holding image has an empty [src], next to the video
    with a poster. *)
Definition empty_holding_image : Page :=
  fun asked =>
    if String.eqb asked "img.p_holding_image"
    then Ok [Fixture.text_element ""]
    else poster_only asked.

End Run.

(* ================================================================== *)
(** * Vocabulary of the further properties *)
(* ================================================================== *)

Module Props.

(** A digit of base 36 as [toString(36)] writes it: [0-9a-z]. *)
Definition is_digit36 (c : ascii) : bool :=
  let n := N_of_ascii c in
  ((48 <=? n)%N && (n <=? 57)%N) || ((97 <=? n)%N && (n <=? 122)%N).

Fixpoint all_digits36 (s : string) : bool :=
  match s with
  | EmptyString => true
  | String c rest => is_digit36 c && all_digits36 rest
  end.

(** Every code unit of [s] is one of [a-z]. *)
Fixpoint all_a_z (s : string) : bool :=
  match s with
  | EmptyString => true
  | String c rest => JsString.is_a_z c && all_a_z rest
  end.

(** The period of the time part of a slug's suffix: five base-36 digits. *)
Definition suffix_period : N := (36 ^ 5)%N.

(** From this clock value on, the clock has at least five base-36 digits
    (28 minutes after the epoch). *)
Definition five_digits_from : N := (36 ^ 4)%N.

(** The number of occurrences of the code unit [c] in [s]. *)
Fixpoint count_char (c : ascii) (s : string) : nat :=
  match s with
  | EmptyString => O
  | String a rest =>
      (if Ascii.eqb a c then 1 else 0) + count_char c rest
  end.

(** The paragraphs of part_000's body, each inside its delimiters. *)
Definition wrapped (paragraphs : list string) : string :=
  JsString.join "" (map (fun p => "<p>" ++ p ++ "</p>") paragraphs).

(** [summary] is the leading part of [text] followed by three dots: what
    is kept is a prefix of the text that holds at most 24 spaces (25 words),
    and it is the whole text when the text holds no more spaces than
    that. *)
Definition leading_part (text summary : string) : Prop :=
  exists kept rest,
    summary = kept ++ "..."
    /\ text = kept ++ rest
    /\ (count_char " " kept <= 24)%nat
    /\ ((count_char " " text <= 24)%nat -> rest = "").

(** An attribute that is missing or empty: falsy for [||]. *)
Definition falsy_attr (o : option string) : Prop :=
  o = None \/ o = Some "".

(** Every column of the row holds a string. *)
Definition row_complete (r : Row.t) : Prop :=
  Js.is_string (Row.id r) /\ Js.is_string (Row.slug r)
  /\ Js.is_string (Row.headline r) /\ Js.is_string (Row.summary r)
  /\ Js.is_string (Row.body r) /\ Js.is_string (Row.author r)
  /\ Js.is_string (Row.resource r) /\ Js.is_string (Row.media r)
  /\ Js.is_string (Row.link r) /\ Js.is_string (Row.date r).

(** What a run that ended with [outcome r] did to the datastore [db] and to
    the snapshot file.  Without connection or sweep nothing happened.  A run
    that ended between the sweep and the loop deleted the rows of this
    source and wrote nothing.  A run that went through the loop added rows
    after the sweep; when it wrote the snapshot, every row it added is the
    row of an article object of the snapshot. *)
Definition job_result_ok (db : Datastore) (r : JobResult) : Prop :=
  match outcome r with
  | ConnectFailed | SweepFailed =>
      final_db r = db /\ snapshot r = None
  | BrowserFailed | ListingLoadFailed | CollectFailed | NoArticles =>
      final_db r = sweep "BBC News" db /\ snapshot r = None
  | SnapshotFailed =>
      snapshot r = None
      /\ exists rows, final_db r = (sweep "BBC News" db ++ rows)%list
  | Completed =>
      exists arts rows,
        snapshot r = Some arts
        /\ final_db r = (sweep "BBC News" db ++ rows)%list
        /\ forall row,
            In row rows -> exists a, In a arts /\ row = Row.of_article a
  end.

(** index.js: where an extractor succeeded on the answers [env], the record
    [r] of the candidate [a] holds what it returned: a non-empty text is
    wrapped once and cited once, and summarized; the byline and the image
    address are stored as found. *)
Definition index_extracted (env : AttemptEnv) (a r : Article.t) : Prop :=
  (forall text,
      Spec.index_text env = Some text ->
      text <> "" ->
      Article.body r
      = Str ("<p>" ++ text ++ "</p>"
             ++ Spec.citation (Article.link a) "BBC News")
      /\ Article.summary r
         = Str (JsString.join " "
                  (JsString.slice0 25 (JsString.split " " text)) ++ "..."))
  /\ (forall name,
         Spec.first_match (Spec.index_doc env) "span.sc-2b5e3b35-7.bZCrck"
                          (fun el => JsString.trim (innerText el))
         = Some name ->
         Article.author r = Str name)
  /\ (forall url,
         Spec.first_match (Spec.index_doc env) "img" src = Some url ->
         Article.media r = Str url).

(** part_000: the same for the other script. *)
Definition part_extracted (env : AttemptEnv) (a r : Article.t) : Prop :=
  (forall paragraphs,
      Spec.part_paragraphs env = Some paragraphs ->
      Article.body r
      = Str (wrapped paragraphs ++ Spec.citation (Article.link a) "BBC News")
      /\ Article.summary r = Str (Part000.summary_of paragraphs))
  /\ (forall name,
         Spec.first_match (dom env) "div > span.sc-2b5e3b35-7.bZCrck"
                          (fun el => JsString.trim (innerText el))
         = Some name ->
         Article.author r = Str name)
  /\ (forall url,
         Spec.first_match (dom env) "img" src = Some url ->
         Article.media r = Str url).

(** index.js: how far a run gets between the sweep and the loop: the
    outcome it ends with, or the candidates the loop will visit. *)
Definition index_candidates (w : World) : Outcome + list Article.t :=
  if negb (browser_ok w) then inl BrowserFailed
  else if negb (IndexJs.load_listing w) then inl ListingLoadFailed
  else match IndexJs.collect (listing_dom w) with
       | Threw => inl CollectFailed
       | Ok articles => inr articles
       end.

(** part_000: the same; an empty listing ends the run too. *)
Definition part_candidates (w : World) : Outcome + list Article.t :=
  if negb (browser_ok w) then inl BrowserFailed
  else if negb (listing_goto_ok w) then inl ListingLoadFailed
  else match Part000.collect (listing_dom w) with
       | Threw => inl CollectFailed
       | Ok articles =>
           if (List.length articles =? 0)%nat then inl NoArticles
           else inr (Part000.articlesWithSlugs w articles)
       end.

(** The outcomes of a run that ended between the sweep and the loop. *)
Definition ended_early (out : Outcome) : Prop :=
  out = BrowserFailed \/ out = ListingLoadFailed
  \/ out = CollectFailed \/ out = NoArticles.

(** The result of a run in closed form, from how far it got and the closed
    form of the batch loop. *)
Definition job_closed (filled : AttemptEnv -> Article.t -> Article.t)
           (w : World) (reached : Outcome + list Article.t)
           (db : Datastore) : JobResult :=
  if negb (connect_ok w) then mkJobResult db None ConnectFailed
  else if negb (sweep_ok w) then mkJobResult db None SweepFailed
  else
    match reached with
    | inl out => mkJobResult (sweep "BBC News" db) None out
    | inr candidates =>
        let vs := Spec.outcomes filled (visits w) 0 candidates in
        let db' := (sweep "BBC News" db ++ Spec.inserted vs)%list in
        if write_ok w
        then mkJobResult db' (Some (map visited vs)) Completed
        else mkJobResult db' None SnapshotFailed
    end.

End Props.

Module Run2.

(** A document with an article text, a byline and an image. *)
Definition full_page : Page :=
  fun asked =>
    if String.eqb asked "article" then Ok [Fixture.text_element "ignored"]
    else if String.eqb asked "span.sc-2b5e3b35-7.bZCrck"
         then Ok [Fixture.text_element " Jo Bloggs "]
    else if String.eqb asked "img"
         then Ok [mkElement "" "https://ichef.bbci.co.uk/a.jpg"
                            Fixture.no_attr Fixture.no_child]
    else Ok [].

(** The answers of an attempt on [full_page]: after the removal the article
    reads as given. *)
Definition full_env (goto_ok insert_ok : bool) : AttemptEnv :=
  mkAttemptEnv goto_ok full_page
               (fun _ => mkPruned "Rain is due.  " full_page)
               "cjld2cjxh0000qzrmn831i7rn" 1730563200123 insert_ok.

(** The navigation fails twice, then the attempt gets through. *)
Definition third_time_lucky : nat -> AttemptEnv :=
  fun k => full_env (2 <=? k)%nat true.

(** Every navigation resolves and every INSERT fails, on [full_page]. *)
Definition datastore_down : nat -> AttemptEnv :=
  fun _ => full_env true false.

(** No navigation ever resolves. *)
Definition never_loads : nat -> AttemptEnv :=
  fun _ => Fixture.env false true blank_page.

End Run2.

(* ================================================================== *)
(** * Failing collaborators and malformed cards *)
(* ================================================================== *)

Module Detail.

(** part_000: the record [r] of the candidate [a] holds a string in every
    field.  The [catch] of the body extractor runs when the paragraph query
    itself throws, and then body and summary are empty.  On a document
    without any text block the query returns no paragraph and does not
    throw: the body is then the citation block alone.  Where the byline or
    the image is not found, author and media are the fallback string and the
    placeholder.  The date is the clock's. *)
Definition part_defaults (env : AttemptEnv) (a r : Article.t) : Prop :=
  Spec.same_entry r a
  /\ Article.complete r
  /\ (Spec.part_paragraphs env = None ->
      Article.body r = Str "" /\ Article.summary r = Str "")
  /\ (Spec.part_paragraphs env = Some [] ->
      Article.body r = Str (Spec.citation (Article.link a) "BBC News"))
  /\ (Spec.first_match (dom env) "div > span.sc-2b5e3b35-7.bZCrck"
                       (fun el => JsString.trim (innerText el)) = None ->
      Article.author r = Str "See article for deatails")
  /\ (Spec.first_match (dom env) "img" src = None ->
      Article.media r = Str default_image)
  /\ Article.date r = Str (JsDate.iso_of_ms (clock env))
  /\ Article.resource r = Str "BBC News"
  /\ Article.id r = Str (cuid env).

(** part_000 keeps a card that has a headline element and a non-empty
    [href]. *)
Definition part_keeps (item : Element) : bool :=
  match querySelector item Part000.card_headline_selector,
        getAttribute item "href" with
  | Some _, Some href => JsString.truthy href
  | _, _ => false
  end.

(** A page on which every evaluation throws. *)
Definition broken_page : Page := fun _ => Threw.

(** Every navigation and INSERT works, and every query throws. *)
Definition crashed : nat -> AttemptEnv :=
  fun _ => Fixture.env true true broken_page.

(** A world whose datastore cannot be reached. *)
Definition offline_world : World :=
  mkWorld false true true true (Ok false) true Run.listing
          (fun _ => 1730563200123%N) (fun _ => "0.4fzyo82mvyr")
          (fun _ => Run.all_fine) true.

(** A link without a headline element. *)
Definition bare_link (href : string) : Element :=
  mkElement ""
            ""
            (fun name => if String.eqb name "href" then Some href else None)
            Fixture.no_child.

(** A well-formed card between three malformed ones: an element without
    [href] and headline, a card with an empty [href], a link without
    headline element. *)
Definition mixed_cards : list Element :=
  [ Fixture.text_element "Weather";
    Fixture.card "Storm hits coast" "/news/a1";
    Fixture.card "Flood warning" "";
    bare_link "/news/a3" ].

Definition mixed_listing : Page :=
  Fixture.page_with Part000.listing_selector mixed_cards.

End Detail.

(* ================================================================== *)
(** * Facts about strings *)
(* ================================================================== *)

Example split_two_spaces : JsString.split " " "a  b" = ["a"; ""; "b"].
Proof. reflexivity. Qed.

Example split_empty : JsString.split " " "" = [""].
Proof. reflexivity. Qed.

Example slice_last_short : JsString.slice_last 5 "0.i" = "0.i".
Proof. reflexivity. Qed.

Example slice_last_long : JsString.slice_last 5 "0.abcdefgh" = "defgh".
Proof. reflexivity. Qed.

Example toString36_of_clock :
  JsString.toString36 1730563200123 = "m30cnb7f".
Proof. vm_compute. reflexivity. Qed.

Example trim_both_ends : JsString.trim "  a b  " = "a b".
Proof. reflexivity. Qed.

Example toLowerCase_mixed : JsString.toLowerCase "Storm HITS" = "storm hits".
Proof. reflexivity. Qed.

Example iso_of_epoch : JsDate.iso_of_ms 0 = "1970-01-01T00:00:00.000Z".
Proof. vm_compute. reflexivity. Qed.

Example iso_of_leap_day :
  JsDate.iso_of_ms 1709251199999 = "2024-02-29T23:59:59.999Z".
Proof. vm_compute. reflexivity. Qed.

Example iso_before_epoch :
  JsDate.iso_of_ms (-1) = "1969-12-31T23:59:59.999Z".
Proof. vm_compute. reflexivity. Qed.

Lemma append_assoc_s (a b c : string) : (a ++ b) ++ c = a ++ b ++ c.
Proof.
  induction a as [|x a IH]; simpl; [reflexivity | now rewrite IH].
Qed.

Lemma append_empty_r (a : string) : a ++ "" = a.
Proof.
  induction a as [|x a IH]; simpl; [reflexivity | now rewrite IH].
Qed.

Lemma split_not_nil (c : ascii) (s : string) : JsString.split c s <> [].
Proof.
  induction s as [|a s IH]; simpl; [discriminate|].
  destruct (Ascii.eqb a c); [discriminate|].
  destruct (JsString.split c s); discriminate.
Qed.

(** ** Base 36 *)

Lemma digit_value_digit36 (d : N) :
  (d < 36)%N -> Spec.digit_value (JsString.digit36 d) = d.
Proof.
  intros Hd. unfold Spec.digit_value, JsString.digit36.
  destruct (N.ltb_spec d 10) as [Hlt|Hge].
  - rewrite N_ascii_embedding by lia.
    destruct (N.ltb_spec (48 + d) 58); lia.
  - rewrite N_ascii_embedding by lia.
    destruct (N.ltb_spec (87 + d) 58); lia.
Qed.

Lemma of36_from_app (s : string) :
  forall acc,
    Spec.of36_from acc s
    = (acc * 36 ^ N.of_nat (String.length s) + Spec.of36 s)%N.
Proof.
  unfold Spec.of36.
  induction s as [|c s IH]; intros acc; cbn [Spec.of36_from String.length].
  - cbn. lia.
  - rewrite IH, (IH (0 * 36 + Spec.digit_value c)%N).
    rewrite Nat2N.inj_succ, N.pow_succ_r by lia. lia.
Qed.

(** The digits written in front of [acc] are those of [n], as long as the
    fuel covers the binary length of [n]. *)
Lemma to36_digits_value :
  forall fuel n acc,
    (n < 2 ^ N.of_nat fuel)%N ->
    Spec.of36 (JsString.to36_digits fuel n acc)
    = (n * 36 ^ N.of_nat (String.length acc) + Spec.of36 acc)%N.
Proof.
  induction fuel as [|fuel IH]; intros n acc Hn.
  - cbn in Hn. assert (n = 0%N) as -> by lia.
    cbn [JsString.to36_digits]. now rewrite N.mul_0_l.
  - cbn [JsString.to36_digits].
    assert (Hmod : (n mod 36 < 36)%N) by (apply N.mod_lt; lia).
    assert (Hdiv : (n = 36 * (n / 36) + n mod 36)%N)
      by (apply N.div_mod; lia).
    assert (Hhead :
              Spec.of36 (String (JsString.digit36 (n mod 36)) acc)
              = (n mod 36 * 36 ^ N.of_nat (String.length acc)
                 + Spec.of36 acc)%N).
    { unfold Spec.of36 at 1. cbn [Spec.of36_from].
      rewrite of36_from_app, digit_value_digit36 by exact Hmod. lia. }
    destruct (N.eqb_spec (n / 36) 0) as [Hzero|Hpos].
    + rewrite Hhead. rewrite Hzero in Hdiv. lia.
    + rewrite IH.
      * rewrite Hhead. cbn [String.length].
        rewrite Nat2N.inj_succ, N.pow_succ_r by lia. nia.
      * rewrite Nat2N.inj_succ, N.pow_succ_r in Hn by lia.
        apply N.Div0.div_lt_upper_bound. lia.
Qed.

(** [toString36] writes all the digits of its argument: reading them back
    gives the number. *)
Lemma of36_toString36 (n : N) : Spec.of36 (JsString.toString36 n) = n.
Proof.
  unfold JsString.toString36. rewrite to36_digits_value.
  - cbn. lia.
  - rewrite Nat2N.inj_succ, N2Nat.id.
    destruct n as [|p]; [reflexivity|].
    apply N.log2_spec. lia.
Qed.

(** ** Split and join *)

(** Joining the pieces of a split with the separator gives the string
    back. *)
Lemma join_split (c : ascii) (s : string) :
  JsString.join (String c "") (JsString.split c s) = s.
Proof.
  unfold JsString.join.
  induction s as [|a s IH]; simpl; [reflexivity|].
  pose proof (split_not_nil c s) as Hne.
  destruct (Ascii.eqb_spec a c) as [->|Hac].
  - destruct (JsString.split c s) as [|t ts]; [congruence|].
    simpl in *. now rewrite IH.
  - destruct (JsString.split c s) as [|t ts]; [congruence|].
    destruct ts as [|t' ts]; simpl in *.
    + now rewrite IH.
    + now rewrite <- IH.
Qed.

Lemma split_free (c : ascii) (t : string) :
  Spec.free_of c t = true -> JsString.split c t = [t].
Proof.
  induction t as [|a t IH]; simpl; [reflexivity|].
  intros H. apply andb_prop in H as [Ha Ht].
  destruct (Ascii.eqb a c); [discriminate|].
  now rewrite (IH Ht).
Qed.

Lemma split_free_then_sep (c : ascii) (t rest : string) :
  Spec.free_of c t = true ->
  JsString.split c (t ++ String c rest) = t :: JsString.split c rest.
Proof.
  induction t as [|a t IH]; simpl.
  - intros _. now rewrite Ascii.eqb_refl.
  - intros H. apply andb_prop in H as [Ha Ht].
    destruct (Ascii.eqb a c); [discriminate|].
    now rewrite (IH Ht).
Qed.

(** A list of separator-free tokens is what the split of their join
    returns: the tokens of a string are unique. *)
Lemma split_join (c : ascii) (toks : list string) :
  toks <> [] ->
  Forall (fun t => Spec.free_of c t = true) toks ->
  JsString.split c (JsString.join (String c "") toks) = toks.
Proof.
  unfold JsString.join.
  induction toks as [|t toks IH]; [congruence|].
  intros _ H. inversion H as [|? ? Ht Htoks]; subst.
  destruct toks as [|t' toks].
  - simpl. now apply split_free.
  - change (String.concat (String c "") (t :: t' :: toks))
      with (t ++ String c (String.concat (String c "") (t' :: toks))).
    rewrite split_free_then_sep by assumption.
    f_equal. apply IH; [discriminate | assumption].
Qed.

(* ================================================================== *)
(** * The body-wrapping transform *)
(* ================================================================== *)

Lemma includes_intro (s before t after : string) :
  s = before ++ t ++ after -> JsString.includes s t.
Proof. intros H. exists before, after. exact H. Qed.

(** index.js, empty body, truthy link: both branches fire. *)
Lemma processBody_empty_body_index (link resource : string) :
  link <> "" ->
  IndexJs.processBody (Str "") (Str link) resource
  = "<p></p>" ++ Spec.citation link resource ++ Spec.citation link resource.
Proof.
  intros Hlink. destruct link as [|a link]; [congruence|].
  unfold IndexJs.processBody, Spec.citation. cbn.
  now rewrite !append_assoc_s.
Qed.

(** C8 (as amended).  With an empty body and a non-empty link the output of
    either script contains the citation block that refers to the link.  With
    an empty body and an empty or missing link index.js returns the empty
    string; part_000 has no such test and returns the citation block for
    every link. *)
Theorem body_wrapping_empty_body :
  (forall link resource,
      link <> "" ->
      JsString.includes (IndexJs.processBody (Str "") (Str link) resource)
                        (Spec.citation link resource))
  /\ (forall link resource,
         Js.truthy link = false ->
         IndexJs.processBody (Str "") link resource = "")
  /\ (forall link resource,
         Part000.processBody [] (Str link) resource
         = Spec.citation link resource).
Proof.
  split; [|split].
  - intros link resource Hlink.
    apply includes_intro with (before := "<p></p>")
                              (after := Spec.citation link resource).
    now apply processBody_empty_body_index.
  - intros link resource Hfalsy.
    unfold IndexJs.processBody. cbn. rewrite Hfalsy. cbn.
    destruct (Js.not_null (Str "")); reflexivity.
  - intros link resource. reflexivity.
Qed.

Lemma body_wrapping_empty_body_witness :
  JsString.includes
    (IndexJs.processBody (Str "") (Str "https://www.bbc.com/news/x") "BBC News")
    (Spec.citation "https://www.bbc.com/news/x" "BBC News")
  /\ IndexJs.processBody (Str "") (Str "") "BBC News" = "".
Proof.
  split.
  - apply (proj1 body_wrapping_empty_body). discriminate.
  - apply (proj1 (proj2 body_wrapping_empty_body)). reflexivity.
Defined.

(** C8 fails as stated: with no paragraph and an empty link part_000 does
    not return the empty string. *)
Lemma body_wrapping_both_empty_part000 :
  Part000.processBody [] (Str "") "BBC News"
  = "<br><br><ul><li><a href=''>Visit BBC News</a></li></ul>"
  /\ Part000.processBody [] (Str "") "BBC News" <> "".
Proof. split; [reflexivity | discriminate]. Qed.

(** C10.  In index.js, for a non-empty link and the empty string as body,
    [processBody] returns an empty paragraph element followed by the
    'Visit BBC News' citation block twice: once from the branch that wraps
    the body, once from the branch for an empty body. *)
Theorem processBody_index_cites_twice (link : string) :
  link <> "" ->
  IndexJs.processBody (Str "") (Str link) "BBC News"
  = "<p></p>" ++ Spec.citation link "BBC News"
    ++ Spec.citation link "BBC News".
Proof. apply processBody_empty_body_index. Qed.

Lemma processBody_index_cites_twice_witness :
  IndexJs.processBody (Str "") (Str "https://www.bbc.com/news/x") "BBC News"
  = "<p></p><br><br><ul><li><a href='https://www.bbc.com/news/x'>Visit BBC News</a></li></ul><br><br><ul><li><a href='https://www.bbc.com/news/x'>Visit BBC News</a></li></ul>".
Proof.
  apply (processBody_index_cites_twice "https://www.bbc.com/news/x").
  discriminate.
Defined.

(* ================================================================== *)
(** * The summary *)
(* ================================================================== *)

Lemma join_nonempty_truthy (toks : list string) :
  JsString.join " " toks <> "" ->
  JsString.truthy (JsString.join " " toks) = true.
Proof.
  destruct (JsString.join " " toks); [congruence | reflexivity].
Qed.

(** C9 (as amended).  The summary is a function of the extracted body
    alone.  Its tokens are the pieces between single spaces (no other white
    space delimits, and two adjacent spaces enclose an empty token): for a
    non-empty body that is the join by single spaces of the space-free
    tokens [toks], the summary is the first 25 of them joined by single
    spaces, followed by three dots, in index.js and in part_000 alike.  In
    index.js the summary of the empty body is the empty string. *)
Theorem summary_first_25_space_tokens :
  IndexJs.summary_of (Str "") = Ok ""
  /\ forall toks : list string,
      toks <> [] ->
      Forall Spec.space_free toks ->
      JsString.join " " toks <> "" ->
      IndexJs.summary_of (Str (JsString.join " " toks))
      = Ok (JsString.join " " (firstn 25 toks) ++ "...")
      /\ forall paragraphs,
          JsString.join " " paragraphs = JsString.join " " toks ->
          Part000.summary_of paragraphs
          = JsString.join " " (firstn 25 toks) ++ "...".
Proof.
  split; [reflexivity|].
  intros toks Hne Hfree Hbody. split.
  - unfold IndexJs.summary_of. cbn [Js.truthy Js.receiver].
    rewrite (join_nonempty_truthy _ Hbody).
    now rewrite (split_join " " toks Hne Hfree).
  - intros paragraphs Heq. unfold Part000.summary_of.
    rewrite Heq. now rewrite (split_join " " toks Hne Hfree).
Qed.

Lemma summary_first_25_space_tokens_witness :
  IndexJs.summary_of (Str "Rain  is due") = Ok "Rain  is due..."
  /\ Part000.summary_of ["Rain "; "is due"] = "Rain  is due...".
Proof.
  assert (Hne : ["Rain"; ""; "is"; "due"] <> []) by discriminate.
  assert (Hfree : Forall Spec.space_free ["Rain"; ""; "is"; "due"])
    by (repeat constructor).
  assert (Hbody : JsString.join " " ["Rain"; ""; "is"; "due"] <> "")
    by discriminate.
  destruct (proj2 summary_first_25_space_tokens _ Hne Hfree Hbody)
    as [Hindex Hpart].
  split; [exact Hindex | exact (Hpart ["Rain "; "is due"] eq_refl)].
Defined.

(** C9 fails as stated: a line feed is white space, yet it does not delimit
    the tokens of either script; the summary of the two-word body below is
    the body itself, line feed included, and not the two words joined by a
    space. *)
Lemma summary_keeps_other_white_space :
  Spec.summary ("a" ++ line_feed ++ "b") = "a b..."
  /\ IndexJs.summary_of (Str ("a" ++ line_feed ++ "b"))
     = Ok ("a" ++ line_feed ++ "b...")
  /\ Part000.summary_of ["a" ++ line_feed ++ "b"]
     = "a" ++ line_feed ++ "b..."
  /\ "a" ++ line_feed ++ "b..." <> Spec.summary ("a" ++ line_feed ++ "b").
Proof. repeat split; try reflexivity. discriminate. Qed.

(** In part_000 a page without any text block has the three dots alone as
    its summary: the expression has no test for an empty body. *)
Example summary_of_no_paragraph_part000 :
  Part000.summary_of [] = "...".
Proof. reflexivity. Qed.

(* ================================================================== *)
(** * Slugs *)
(* ================================================================== *)

Lemma a_z_is_not_hyphen (a : ascii) :
  JsString.is_a_z a = true -> Ascii.eqb a "-" = false.
Proof.
  intros H. destruct (Ascii.eqb_spec a "-") as [->|]; [|reflexivity].
  discriminate H.
Qed.

(** What is left of a headline holds no hyphen. *)
Lemma strip_non_a_z_no_hyphen (s : string) :
  Spec.free_of "-" (JsString.strip_non_a_z s) = true.
Proof.
  induction s as [|a s IH]; simpl; [reflexivity|].
  destruct (JsString.is_a_z a) eqn:Ha; [|exact IH].
  simpl. now rewrite (a_z_is_not_hyphen a Ha), IH.
Qed.

(** A string is cut at its first separator in one way only. *)
Lemma cut_at_first_separator (c : ascii) (b1 b2 u1 u2 : string) :
  Spec.free_of c b1 = true ->
  Spec.free_of c b2 = true ->
  b1 ++ String c u1 = b2 ++ String c u2 ->
  b1 = b2 /\ u1 = u2.
Proof.
  revert b2. induction b1 as [|x b1 IH]; intros [|y b2]; simpl; intros H1 H2 E.
  - now inversion E.
  - inversion E; subst. rewrite Ascii.eqb_refl in H2. discriminate.
  - inversion E; subst. rewrite Ascii.eqb_refl in H1. discriminate.
  - apply andb_prop in H1 as [_ H1]. apply andb_prop in H2 as [_ H2].
    inversion E; subst.
    destruct (IH b2 H1 H2 ltac:(assumption)) as [-> ->]. now split.
Qed.

(** Two slugs of part_000 are equal exactly when their bases and their
    time and random suffixes are. *)
Lemma generateSlug_eq_iff (now1 now2 : N) (r1 r2 h1 h2 l1 l2 : string) :
  Part000.generateSlug now1 r1 h1 l1 = Part000.generateSlug now2 r2 h2 l2
  <-> Part000.baseSlug h1 = Part000.baseSlug h2
      /\ Part000.uniquePart now1 r1 = Part000.uniquePart now2 r2.
Proof.
  unfold Part000.generateSlug. split.
  - intros E. eapply cut_at_first_separator; [| |exact E];
      apply strip_non_a_z_no_hyphen.
  - now intros [-> ->].
Qed.

Lemma in_map_indexed {A B} (f : nat -> A -> B) (l : list A) :
  forall i y,
    In y (map_indexed f i l) ->
    exists j x, (i <= j < i + List.length l)%nat /\ y = f j x.
Proof.
  induction l as [|x l IH]; simpl; intros i y H; [contradiction|].
  destruct H as [<-|H].
  - exists i, x. split; [lia | reflexivity].
  - destruct (IH _ _ H) as (j & x' & Hj & ->).
    exists j, x'. split; [lia | reflexivity].
Qed.

Lemma slugs_of_run_distinct (w : World) (entries : list Part000.Entry) :
  forall i,
    NoDup (map (fun j => Part000.uniquePart (slug_clock w j) (slug_random w j))
               (seq i (List.length entries))) ->
    NoDup (map Article.slug
               (map_indexed
                  (fun j e =>
                     Article.candidate
                       (Part000.headline e) (Part000.link e)
                       (Part000.generateSlug (slug_clock w j) (slug_random w j)
                          (Part000.headline e) (Part000.link e)))
                  i entries)).
Proof.
  induction entries as [|e entries IH]; simpl; intros i H; [constructor|].
  inversion H as [|? ? Hnotin Hrest]; subst.
  constructor; [|now apply IH].
  intros Hin. apply in_map_iff in Hin as (a & Hslug & Hin).
  apply in_map_indexed in Hin as (j & e' & Hj & ->).
  simpl in Hslug. apply generateSlug_eq_iff in Hslug as [_ Hu].
  apply Hnotin. apply in_map_iff. exists j. split; [exact Hu|].
  apply in_seq. lia.
Qed.

(** C1 (as amended).  In part_000 the slugs of one run are pairwise
    distinct, byte-identical headlines included, whenever the suffixes drawn
    for the entries (the last five base-36 digits of the clock followed by
    the last five of the random draw) are pairwise distinct.  In index.js a
    slug has no suffix: two cards with the same headline get the same
    slug. *)
Theorem slugs_distinct_when_suffixes_differ :
  (forall (w : World) (entries : list Part000.Entry),
      NoDup (map (fun j =>
                    Part000.uniquePart (slug_clock w j) (slug_random w j))
                 (seq 0 (List.length entries))) ->
      NoDup (map Article.slug (Part000.articlesWithSlugs w entries)))
  /\ (forall item1 item2 a1 a2,
         IndexJs.collect_item item1 = Ok a1 ->
         IndexJs.collect_item item2 = Ok a2 ->
         Article.headline a1 = Article.headline a2 ->
         Article.slug a1 = Article.slug a2).
Proof.
  split.
  - intros w entries. apply slugs_of_run_distinct.
  - intros item1 item2 a1 a2. unfold IndexJs.collect_item.
    destruct (getAttribute item1 "href"); [|discriminate].
    destruct (getAttribute item2 "href"); [|discriminate].
    destruct (querySelector item1 _); [|discriminate].
    destruct (querySelector item2 _); [|discriminate].
    cbn. intros [= <-] [= <-]. cbn. now intros ->.
Qed.

(** A world whose clock advances by one millisecond per call. *)
Lemma slugs_distinct_when_suffixes_differ_witness :
  NoDup (map Article.slug
             (Part000.articlesWithSlugs
                (mkWorld true true true true (Ok false) true blank_page
                         (fun i => (1730563200123 + N.of_nat i)%N)
                         (fun _ => "0.4fzyo82mvyr")
                         (fun _ _ => Fixture.env true true blank_page) true)
                [ Part000.mkEntry "Storm hits coast" "https://www.bbc.com/a1";
                  Part000.mkEntry "Storm hits coast" "https://www.bbc.com/a2" ])).
Proof.
  apply (proj1 slugs_distinct_when_suffixes_differ).
  vm_compute. repeat constructor; simpl; intuition discriminate.
Defined.

(** C1 fails as stated.  index.js gives the two cards of the listing, which
    carry the same headline, the same slug; and part_000 gives two entries
    with the same headline the same slug when the clock and the random draw
    repeat. *)
Lemma identical_headlines_collide :
  (exists a1 a2,
      IndexJs.collect
        (Fixture.page_with IndexJs.listing_selector Fixture.twin_cards)
      = Ok [a1; a2]
      /\ Article.link a1 <> Article.link a2
      /\ Article.slug a1 = "stormhitscoast"
      /\ Article.slug a2 = "stormhitscoast")
  /\ map Article.slug
         (Part000.articlesWithSlugs
            (Fixture.world blank_page (fun _ _ => Fixture.env true true blank_page))
            [ Part000.mkEntry "Storm hits coast" "https://www.bbc.com/a1";
              Part000.mkEntry "Storm hits coast" "https://www.bbc.com/a2" ])
     = [ "stormhitscoast-cnb7f2mvyr"; "stormhitscoast-cnb7f2mvyr" ].
Proof.
  split.
  - eexists _, _. split; [vm_compute; reflexivity|].
    cbn. repeat split; discriminate.
  - vm_compute. reflexivity.
Qed.

(* ================================================================== *)
(** * One attempt in closed form *)
(* ================================================================== *)

Lemma bind_ok {A B} (m : M A) (k : A -> M B) (s s' : St) (a : A) :
  m s = (s', Ok a) -> bind m k s = k a s'.
Proof. unfold bind. now intros ->. Qed.

Lemma bind_threw {A B} (m : M A) (k : A -> M B) (s s' : St) :
  m s = (s', Threw) -> bind m k s = (s', Threw).
Proof. unfold bind. now intros ->. Qed.

(** An extractor with its [catch]: the field gets the extracted value or the
    default, and nothing is thrown. *)
Lemma extract_or_default (selector d : string) (f : Element -> string)
      (set : JsVal -> Article.t -> Article.t) (s : St) :
  try_catch (bind (page_eval selector f) (fun x => update (set (Str x))))
            (update (set (Str d))) s
  = (mkSt (set (Str (Spec.or_default d (Spec.first_match (doc s) selector f)))
               (art s))
          (store s) (doc s),
     Ok tt).
Proof.
  unfold try_catch, bind, page_eval, update, Spec.first_match, Spec.or_default.
  destruct (doc s selector) as [[|el els]|]; reflexivity.
Qed.

Lemma extractMainImage_index (s : St) :
  IndexJs.extractMainImage s
  = (s, Ok (Spec.or_default default_image (Spec.first_match (doc s) "img" src))).
Proof.
  unfold IndexJs.extractMainImage, try_catch, page_eval, ret,
    Spec.first_match, Spec.or_default.
  destruct (doc s "img") as [[|el els]|]; reflexivity.
Qed.

Lemma media_block_index (s : St) :
  try_catch
    (bind IndexJs.extractMainImage
          (fun url => update (Article.set_media (Str url))))
    (update (Article.set_media (Str default_image))) s
  = (mkSt (Article.set_media
             (Str (Spec.or_default default_image
                     (Spec.first_match (doc s) "img" src)))
             (art s))
          (store s) (doc s),
     Ok tt).
Proof.
  unfold try_catch.
  now rewrite (bind_ok _ _ _ _ _ (extractMainImage_index s)).
Qed.

Lemma body_block_index (env : AttemptEnv) (a : Article.t) (db : Datastore) :
  try_catch
    (bind (IndexJs.eval_article env)
          (fun text => update (Article.set_body (Str text))))
    (update (Article.set_body (Str ""))) (mkSt a db (dom env))
  = (mkSt (Article.set_body (Str (Spec.or_default "" (Spec.index_text env))) a)
          db (Spec.index_doc env),
     Ok tt).
Proof.
  unfold try_catch, bind, IndexJs.eval_article, update, Spec.index_text,
    Spec.index_doc, Spec.first_match, Spec.or_default.
  cbn [doc art store].
  destruct (dom env "article") as [[|el els]|]; reflexivity.
Qed.

Lemma summarize_index (a : Article.t) (db : Datastore) (pg : Page)
      (text : string) :
  Article.body a = Str text ->
  IndexJs.summarize (mkSt a db pg)
  = (mkSt (Article.set_summary
             (Str (if JsString.truthy text
                   then JsString.join " "
                          (JsString.slice0 25 (JsString.split " " text))
                        ++ "..."
                   else ""))
             a)
          db pg,
     Ok tt).
Proof.
  intros Hbody.
  unfold IndexJs.summarize, IndexJs.summary_of, bind, get_article, lift,
    update.
  cbn [art store doc]. rewrite Hbody. cbn [Js.truthy Js.receiver].
  destruct (JsString.truthy text); reflexivity.
Qed.

Lemma extract_date_index (parse : string -> JsDate.TimeValue) (s : St) :
  IndexJs.extract_date parse s
  = (mkSt (Article.set_date
             (Str (Spec.index_date parse
                     (Spec.first_match (doc s) "time"
                        (fun el => getAttribute el "datetime"))))
             (art s))
          (store s) (doc s),
     Ok tt).
Proof.
  unfold IndexJs.extract_date, try_catch, bind, page_eval, lift, update,
    Spec.index_date, Spec.first_match, JsDate.toISOString.
  destruct (doc s "time") as [[|el els]|]; try reflexivity.
  destruct (JsDate.of_attr parse (getAttribute el "datetime")); reflexivity.
Qed.

Lemma goto_resolves (env : AttemptEnv) (s : St) :
  goto_ok env = true ->
  goto env s = (mkSt (art s) (store s) (dom env), Ok tt).
Proof. unfold goto. now intros ->. Qed.

Lemma goto_throws (env : AttemptEnv) (s : St) :
  goto_ok env = false -> goto env s = (s, Threw).
Proof. unfold goto. now intros ->. Qed.

Lemma update_eq (f : Article.t -> Article.t) (s : St) :
  update f s = (mkSt (f (art s)) (store s) (doc s), Ok tt).
Proof. reflexivity. Qed.

Lemma get_article_eq (s : St) : get_article s = (s, Ok (art s)).
Proof. reflexivity. Qed.

(** One more statement of the chain ran through. *)
Ltac next_by lem := erewrite bind_ok; [cbv beta | apply lem]; cbn [art store doc].

Lemma attempt_index_shape (parse : string -> JsDate.TimeValue) :
  Spec.attempt_shape (IndexJs.attempt parse) (Spec.index_filled parse)
                Spec.index_doc.
Proof.
  intros env a db pg. unfold IndexJs.attempt.
  destruct (goto_ok env) eqn:Hgoto;
    [|exact (bind_threw _ _ _ _ (goto_throws _ _ Hgoto))].
  erewrite bind_ok by (now apply goto_resolves). cbn [art store doc].
  next_by body_block_index.
  erewrite bind_ok by (now apply summarize_index).
  next_by get_article_eq.
  next_by update_eq.
  next_by extract_or_default.
  next_by media_block_index.
  next_by extract_date_index.
  next_by update_eq.
  next_by update_eq.
  next_by get_article_eq.
  unfold insert. cbn [art store doc].
  destruct (insert_ok env); reflexivity.
Qed.

Lemma body_block_part (env : AttemptEnv) (a : Article.t) (db : Datastore) :
  try_catch
    (bind (page_eval_all Part000.text_block_selector
             (map (fun p => JsString.trim (innerText p))))
          (fun paragraphs =>
             bind get_article
                  (fun a =>
                     bind (update
                             (Article.set_body
                                (Str (Part000.processBody
                                        paragraphs (Str (Article.link a))
                                        "BBC News"))))
                          (fun _ =>
                             update (Article.set_summary
                                       (Str (Part000.summary_of paragraphs)))))))
    (bind (update (Article.set_body (Str "")))
          (fun _ => update (Article.set_summary (Str ""))))
    (mkSt a db (dom env))
  = (mkSt (Article.set_summary
             (Str (match Spec.part_paragraphs env with
                   | Some ps => Part000.summary_of ps
                   | None => ""
                   end))
             (Article.set_body
                (Str (match Spec.part_paragraphs env with
                      | Some ps =>
                          Part000.processBody ps (Str (Article.link a))
                                              "BBC News"
                      | None => ""
                      end))
                a))
          db (dom env),
     Ok tt).
Proof.
  unfold try_catch, bind, page_eval_all, get_article, update,
    Spec.part_paragraphs.
  cbn [art store doc].
  destruct (dom env Part000.text_block_selector); reflexivity.
Qed.

Lemma media_block_part (s : St) :
  try_catch
    (bind Part000.extractMainImage
          (fun url => update (Article.set_media (Str url))))
    (update (Article.set_media (Str default_image))) s
  = (mkSt (Article.set_media
             (Str (Spec.or_default default_image
                     (Spec.first_match (doc s) "img" src)))
             (art s))
          (store s) (doc s),
     Ok tt).
Proof. exact (media_block_index s). Qed.

Lemma attempt_part_shape :
  Spec.attempt_shape Part000.attempt Spec.part_filled dom.
Proof.
  intros env a db pg. unfold Part000.attempt.
  destruct (goto_ok env) eqn:Hgoto;
    [|exact (bind_threw _ _ _ _ (goto_throws _ _ Hgoto))].
  erewrite bind_ok by (now apply goto_resolves). cbn [art store doc].
  next_by body_block_part.
  next_by extract_or_default.
  next_by media_block_part.
  next_by update_eq.
  next_by update_eq.
  erewrite bind_ok by reflexivity.
  next_by update_eq.
  next_by get_article_eq.
  unfold insert. cbn [art store doc].
  destruct (insert_ok env); reflexivity.
Qed.

(* ================================================================== *)
(** * The loops in closed form *)
(* ================================================================== *)

Section LoopFacts.

Variable attempt : AttemptEnv -> M unit.
Variable filled : AttemptEnv -> Article.t -> Article.t.
Variable seen : AttemptEnv -> Page.
Hypothesis shape : Spec.attempt_shape attempt filled seen.

Lemma while_loop_done (env : nat -> AttemptEnv) (fuel : nat) (l : LoopSt) :
  loop_cond l = false -> while_loop attempt env fuel l = Some l.
Proof. intros H. destruct fuel; simpl; now rewrite H. Qed.

Lemma loop_cond_running (s : St) (k : nat) :
  (k < maxAttempts)%nat -> loop_cond (mkLoopSt s false k) = true.
Proof.
  intros Hk. unfold loop_cond. cbn [success attempts negb andb].
  now apply Nat.ltb_lt.
Qed.

(** With [n] attempts left and enough fuel for them, the loop ends in the
    state its closed form gives; the page it leaves does not depend on the
    datastore. *)
Lemma while_loop_outcome (env : nat -> AttemptEnv) :
  forall n fuel k a pg,
    (k + n = maxAttempts)%nat ->
    (n <= fuel)%nat ->
    exists pg',
    forall db,
      while_loop attempt env fuel (mkLoopSt (mkSt a db pg) false k)
      = Some (Spec.left_as (Spec.outcome_from filled env n k a) db pg').
Proof.
  induction n as [|n IH]; intros fuel k a pg Hk Hfuel.
  - exists pg. intros db. rewrite while_loop_done.
    + unfold Spec.left_as, Spec.rows_of. cbn. now rewrite app_nil_r.
    + unfold loop_cond. cbn [success attempts negb andb].
      apply Nat.ltb_ge. lia.
  - destruct fuel as [|fuel]; [lia|].
    assert (Hstep : forall db,
               while_loop attempt env (S fuel) (mkLoopSt (mkSt a db pg) false k)
               = while_loop attempt env fuel
                   (loop_body attempt env (mkLoopSt (mkSt a db pg) false k))).
    { intros db. cbn [while_loop]. now rewrite loop_cond_running by lia. }
    cbn [Spec.outcome_from]. unfold loop_body in Hstep.
    cbn [st attempts success] in Hstep.
    destruct (goto_ok (env k)) eqn:Hgoto;
      [destruct (insert_ok (env k)) eqn:Hins|].
    + exists (seen (env k)). intros db.
      rewrite Hstep, shape, Hgoto, Hins. now rewrite while_loop_done.
    + destruct (IH fuel (S k) (filled (env k) a) (seen (env k)))
        as [pg' Hpg']; [lia | lia |].
      exists pg'. intros db. rewrite Hstep, shape, Hgoto, Hins. apply Hpg'.
    + destruct (IH fuel (S k) a pg) as [pg' Hpg']; [lia | lia |].
      exists pg'. intros db. rewrite Hstep, shape, Hgoto. apply Hpg'.
Qed.

Lemma visit_outcome (env : nat -> AttemptEnv) (fuel : nat) (a : Article.t)
      (pg : Page) :
  (maxAttempts <= fuel)%nat ->
  exists pg',
  forall db,
    visit attempt env fuel a db pg
    = Some (Spec.left_as (Spec.outcome filled env a) db pg').
Proof.
  intros Hfuel. unfold visit, Spec.outcome.
  apply while_loop_outcome; [reflexivity | exact Hfuel].
Qed.

Lemma for_each_outcome (envs : nat -> nat -> AttemptEnv) (fuel : nat) :
  (maxAttempts <= fuel)%nat ->
  forall arts i pg,
  exists pg',
  forall db,
    for_each attempt envs fuel i arts db pg
    = Some (Spec.outcomes filled envs i arts,
            (db ++ Spec.inserted (Spec.outcomes filled envs i arts))%list,
            pg').
Proof.
  intros Hfuel. induction arts as [|a arts IH]; intros i pg.
  - exists pg. intros db. cbn. now rewrite app_nil_r.
  - destruct (visit_outcome (envs i) fuel a pg Hfuel) as [pg1 Hvisit].
    destruct (IH (S i) pg1) as [pg' Hrest].
    exists pg'. intros db. cbn [for_each Spec.outcomes].
    rewrite Hvisit. unfold Spec.left_as. cbn [st store doc art success attempts].
    rewrite Hrest. unfold Spec.inserted. cbn [flat_map].
    rewrite <- app_assoc.
    now destruct (Spec.outcome filled (envs i) a).
Qed.

End LoopFacts.

(* ================================================================== *)
(** * What the closed form of a visit says *)
(* ================================================================== *)

Section OutcomeFacts.

Variable filled : AttemptEnv -> Article.t -> Article.t.
Variable env : nat -> AttemptEnv.

Lemma outcome_attempts_bound :
  forall n k a,
    (k <= attempts_made (Spec.outcome_from filled env n k a) <= k + n)%nat.
Proof.
  induction n as [|n IH]; intros k a; cbn [Spec.outcome_from].
  - cbn. lia.
  - destruct (goto_ok (env k)); [destruct (insert_ok (env k))|].
    + cbn. lia.
    + specialize (IH (S k) (filled (env k) a)). lia.
    + specialize (IH (S k) a). lia.
Qed.

(** The entry succeeds exactly when one of its attempts gets through. *)
Lemma outcome_succeeded_iff :
  forall n k a,
    succeeded (Spec.outcome_from filled env n k a) = true
    <-> exists j, (k <= j < k + n)%nat /\ Spec.gets_through (env j).
Proof.
  unfold Spec.gets_through.
  induction n as [|n IH]; intros k a; cbn [Spec.outcome_from].
  - cbn. split; [discriminate | intros (j & Hj & _); lia].
  - destruct (goto_ok (env k)) eqn:Hgoto;
      [destruct (insert_ok (env k)) eqn:Hins|].
    + cbn. split; [|reflexivity]. intros _. exists k. split; [lia | now split].
    + rewrite IH. split; intros (j & Hj & Hok).
      * exists j. split; [lia | exact Hok].
      * exists j. split; [|exact Hok].
        destruct (Nat.eq_dec j k) as [->|]; [|lia].
        destruct Hok as [_ Hok]. congruence.
    + rewrite IH. split; intros (j & Hj & Hok).
      * exists j. split; [lia | exact Hok].
      * exists j. split; [|exact Hok].
        destruct (Nat.eq_dec j k) as [->|]; [|lia].
        destruct Hok as [Hok _]. congruence.
Qed.

(** The first attempt that gets through is the last one made. *)
Lemma outcome_first_through :
  forall n k a j,
    (k <= j < k + n)%nat ->
    Spec.gets_through (env j) ->
    (forall i, (k <= i < j)%nat -> ~ Spec.gets_through (env i)) ->
    attempts_made (Spec.outcome_from filled env n k a) = S j.
Proof.
  unfold Spec.gets_through.
  induction n as [|n IH]; intros k a j Hj Hok Hbefore; [lia|].
  cbn [Spec.outcome_from].
  destruct (Nat.eq_dec j k) as [->|Hjk].
  - destruct Hok as [-> ->]. reflexivity.
  - assert (Hk : ~ (goto_ok (env k) = true /\ insert_ok (env k) = true))
      by (apply Hbefore; lia).
    destruct (goto_ok (env k)); [destruct (insert_ok (env k))|].
    + exfalso. apply Hk. now split.
    + apply IH; [lia | exact Hok | intros i Hi; apply Hbefore; lia].
    + apply IH; [lia | exact Hok | intros i Hi; apply Hbefore; lia].
Qed.

(** An entry that does not succeed used up its attempts. *)
Lemma outcome_exhausted :
  forall n k a,
    succeeded (Spec.outcome_from filled env n k a) = false ->
    attempts_made (Spec.outcome_from filled env n k a) = (k + n)%nat.
Proof.
  induction n as [|n IH]; intros k a; cbn [Spec.outcome_from].
  - cbn. lia.
  - destruct (goto_ok (env k)); [destruct (insert_ok (env k))|].
    + cbn. discriminate.
    + intros H. rewrite (IH _ _ H). lia.
    + intros H. rewrite (IH _ _ H). lia.
Qed.

Hypothesis filled_same : forall e a, Spec.same_entry (filled e a) a.

Lemma same_entry_trans (a b c : Article.t) :
  Spec.same_entry a b -> Spec.same_entry b c -> Spec.same_entry a c.
Proof.
  unfold Spec.same_entry. intros (H1 & H2 & H3) (H4 & H5 & H6).
  repeat split; congruence.
Qed.

Lemma same_entry_refl (a : Article.t) : Spec.same_entry a a.
Proof. now repeat split. Qed.

(** The article object an entry ends with belongs to the same candidate. *)
Lemma outcome_same_entry :
  forall n k a,
    Spec.same_entry (visited (Spec.outcome_from filled env n k a)) a.
Proof.
  induction n as [|n IH]; intros k a; cbn [Spec.outcome_from].
  - apply same_entry_refl.
  - destruct (goto_ok (env k)); [destruct (insert_ok (env k))|].
    + apply filled_same.
    + eapply same_entry_trans; [apply IH | apply filled_same].
    + apply IH.
Qed.

(** The record of an entry that succeeded is what its last attempt filled
    in, starting from an object of the same candidate. *)
Lemma outcome_record :
  forall n k a,
    succeeded (Spec.outcome_from filled env n k a) = true ->
    exists j a',
      (k <= j < k + n)%nat
      /\ Spec.gets_through (env j)
      /\ attempts_made (Spec.outcome_from filled env n k a) = S j
      /\ Spec.same_entry a' a
      /\ visited (Spec.outcome_from filled env n k a) = filled (env j) a'.
Proof.
  unfold Spec.gets_through.
  induction n as [|n IH]; intros k a; cbn [Spec.outcome_from].
  - cbn. discriminate.
  - destruct (goto_ok (env k)) eqn:Hgoto;
      [destruct (insert_ok (env k)) eqn:Hins|].
    + intros _. exists k, a. cbn.
      split; [lia|]. split; [now split|]. split; [reflexivity|].
      split; [apply same_entry_refl | reflexivity].
    + intros H. destruct (IH _ _ H) as (j & a' & Hj & Hok & Hn & Hsame & Hv).
      exists j, a'.
      split; [lia|]. split; [exact Hok|]. split; [exact Hn|].
      split; [|exact Hv].
      eapply same_entry_trans; [exact Hsame | apply filled_same].
    + intros H. destruct (IH _ _ H) as (j & a' & Hj & Hok & Hn & Hsame & Hv).
      exists j, a'.
      split; [lia|]. split; [exact Hok|]. split; [exact Hn|].
      split; [exact Hsame | exact Hv].
Qed.

End OutcomeFacts.

(** Verdict and number of attempts depend on the navigations and the
    INSERTs alone. *)
Lemma outcome_control (filled1 filled2 : AttemptEnv -> Article.t -> Article.t)
      (env1 env2 : nat -> AttemptEnv) :
  (forall k, goto_ok (env1 k) = goto_ok (env2 k)) ->
  (forall k, insert_ok (env1 k) = insert_ok (env2 k)) ->
  forall n k a1 a2,
    succeeded (Spec.outcome_from filled1 env1 n k a1)
    = succeeded (Spec.outcome_from filled2 env2 n k a2)
    /\ attempts_made (Spec.outcome_from filled1 env1 n k a1)
       = attempts_made (Spec.outcome_from filled2 env2 n k a2).
Proof.
  intros Hgoto Hins.
  induction n as [|n IH]; intros k a1 a2; cbn [Spec.outcome_from].
  - now split.
  - rewrite <- Hgoto, <- Hins.
    destruct (goto_ok (env1 k)); [destruct (insert_ok (env1 k))|].
    + now split.
    + apply IH.
    + apply IH.
Qed.

(* ================================================================== *)
(** * The two scripts' attempts *)
(* ================================================================== *)

Lemma index_filled_same (parse : string -> JsDate.TimeValue)
      (e : AttemptEnv) (a : Article.t) :
  Spec.same_entry (Spec.index_filled parse e a) a.
Proof. now repeat split. Qed.

Lemma part_filled_same (e : AttemptEnv) (a : Article.t) :
  Spec.same_entry (Spec.part_filled e a) a.
Proof. now repeat split. Qed.

Lemma is_string_Str (s : string) : Js.is_string (Str s).
Proof. now exists s. Qed.

Create HintDb records.
#[local] Hint Resolve is_string_Str : records.

Lemma index_filled_record (parse : string -> JsDate.TimeValue)
      (e : AttemptEnv) (a a' : Article.t) :
  Spec.same_entry a' a ->
  Spec.index_record e a (Spec.index_filled parse e a').
Proof.
  intros (Hh & Hl & Hs). unfold Spec.index_record, Spec.index_filled.
  cbn [Article.body Article.summary Article.author Article.media Article.date
       Article.resource Article.id].
  split; [now repeat split|].
  split; [unfold Article.complete; cbn; auto 10 with records|].
  split; [intros ->; cbn; now rewrite Hl|].
  split; [now intros ->|].
  split; [now intros ->|].
  split; [now intros ->|].
  now split.
Qed.

Lemma part_filled_record (e : AttemptEnv) (a a' : Article.t) :
  Spec.same_entry a' a ->
  Spec.part_record e a (Spec.part_filled e a').
Proof.
  intros (Hh & Hl & Hs). unfold Spec.part_record, Spec.part_filled.
  cbn [Article.body Article.summary Article.author Article.media Article.date
       Article.resource Article.id].
  split; [now repeat split|].
  split; [unfold Article.complete; cbn; auto 10 with records|].
  split; [now intros ->|].
  split; [now intros ->|].
  split; [now intros ->|].
  now repeat split.
Qed.

Lemma index_filled_date (parse : string -> JsDate.TimeValue)
      (e : AttemptEnv) (a : Article.t) :
  Spec.index_date_ok parse e (Spec.index_filled parse e a).
Proof.
  unfold Spec.index_date_ok, Spec.index_filled, Spec.index_date.
  cbn [Article.date].
  destruct (Spec.first_match (Spec.index_doc e) "time" _) as [[raw|]|];
    cbn [JsDate.of_attr]; try exact I; try reflexivity.
  destruct (parse raw); reflexivity.
Qed.

(* ================================================================== *)
(** * The batch *)
(* ================================================================== *)

Section BatchFacts.

Variable filled : AttemptEnv -> Article.t -> Article.t.
Variable envs : nat -> nat -> AttemptEnv.
Hypothesis filled_same : forall e a, Spec.same_entry (filled e a) a.

Lemma outcomes_length (arts : list Article.t) :
  forall i, List.length (Spec.outcomes filled envs i arts) = List.length arts.
Proof.
  induction arts as [|a arts IH]; intros i; cbn; [reflexivity|].
  now rewrite IH.
Qed.

Lemma outcomes_nth (arts : list Article.t) :
  forall i j v,
    nth_error (Spec.outcomes filled envs i arts) j = Some v ->
    exists a,
      nth_error arts j = Some a /\ v = Spec.outcome filled (envs (i + j)%nat) a.
Proof.
  induction arts as [|a arts IH]; intros i j v; cbn [Spec.outcomes].
  - destruct j; discriminate.
  - destruct j as [|j]; cbn [nth_error].
    + intros [= <-]. exists a. now rewrite Nat.add_0_r.
    + intros H. destruct (IH _ _ _ H) as (a' & Ha' & ->).
      exists a'. split; [exact Ha'|]. now rewrite Nat.add_succ_r.
Qed.

Lemma outcomes_batch_ok (arts : list Article.t) (db : Datastore) :
  Spec.batch_ok envs arts db (Spec.outcomes filled envs 0 arts)
                (db ++ Spec.inserted (Spec.outcomes filled envs 0 arts))%list.
Proof.
  split; [apply outcomes_length|]. split; [|reflexivity].
  intros i v Hv. apply outcomes_nth in Hv as (a & Ha & ->). cbn [Nat.add].
  unfold Spec.outcome.
  split; [exists a; split; [exact Ha | now apply outcome_same_entry]|].
  split; [apply (outcome_attempts_bound filled (envs i) maxAttempts 0 a)|].
  split.
  - rewrite outcome_succeeded_iff. cbn [Nat.add].
    split; intros (k & Hk & Hok); exists k; (split; [lia | exact Hok]).
  - unfold Spec.rows_of. now intros ->.
Qed.

Hypothesis filled_resource :
  forall e a, Article.resource (filled e a) = Str "BBC News".

Lemma rows_of_outcome_tagged (env : nat -> AttemptEnv) (a : Article.t) :
  Forall (fun r => Spec.of_this_source r = true)
         (Spec.rows_of (Spec.outcome filled env a)).
Proof.
  unfold Spec.rows_of, Spec.outcome.
  destruct (succeeded _) eqn:Hok; [|constructor].
  destruct (outcome_record filled env filled_same _ _ _ Hok)
    as (j & a' & _ & _ & _ & _ & ->).
  constructor; [|constructor].
  unfold Spec.of_this_source, Row.tagged, Row.of_article. cbn [Row.resource].
  now rewrite filled_resource.
Qed.

Lemma inserted_tagged (arts : list Article.t) :
  forall i,
    Forall (fun r => Spec.of_this_source r = true)
           (Spec.inserted (Spec.outcomes filled envs i arts)).
Proof.
  unfold Spec.inserted.
  induction arts as [|a arts IH]; intros i; cbn; [constructor|].
  apply Forall_app. split; [apply rows_of_outcome_tagged | apply IH].
Qed.

End BatchFacts.

(* ================================================================== *)
(** * The retry loop *)
(* ================================================================== *)

Section VisitFacts.

Variable attempt : AttemptEnv -> M unit.
Variable filled : AttemptEnv -> Article.t -> Article.t.
Variable seen : AttemptEnv -> Page.
Hypothesis shape : Spec.attempt_shape attempt filled seen.

(** With fuel for [maxAttempts] rounds the batch loop returns, and what it
    returns is its closed form. *)
Lemma for_each_batch_ok (envs : nat -> nat -> AttemptEnv) (fuel : nat)
      (arts : list Article.t) (db : Datastore) (pg : Page) :
  (forall e a, Spec.same_entry (filled e a) a) ->
  (maxAttempts <= fuel)%nat ->
  exists vs db' pg',
    for_each attempt envs fuel 0 arts db pg = Some (vs, db', pg')
    /\ Spec.batch_ok envs arts db vs db'.
Proof.
  intros Hsame Hfuel.
  destruct (for_each_outcome attempt filled seen shape envs fuel Hfuel arts 0 pg)
    as [pg' Hrun].
  exists (Spec.outcomes filled envs 0 arts),
    (db ++ Spec.inserted (Spec.outcomes filled envs 0 arts))%list, pg'.
  split; [apply Hrun | now apply outcomes_batch_ok].
Qed.

(** The loop of one entry returns, with the verdict and the count of its
    closed form. *)
Lemma visit_returns (env : nat -> AttemptEnv) (fuel : nat) (a : Article.t)
      (db : Datastore) (pg : Page) :
  (maxAttempts <= fuel)%nat ->
  exists l,
    visit attempt env fuel a db pg = Some l
    /\ art (st l) = visited (Spec.outcome filled env a)
    /\ store (st l) = (db ++ Spec.rows_of (Spec.outcome filled env a))%list
    /\ success l = succeeded (Spec.outcome filled env a)
    /\ attempts l = attempts_made (Spec.outcome filled env a).
Proof.
  intros Hfuel.
  destruct (visit_outcome attempt filled seen shape env fuel a pg Hfuel)
    as [pg' Hrun].
  eexists. split; [apply Hrun|]. now repeat split.
Qed.

End VisitFacts.

(** C3.  For every candidate the loop makes at most 3 attempts; a candidate
    none of whose attempts succeeds is skipped: it adds no row to the
    datastore, and the batch goes on with the next candidate, so that every
    candidate is visited whatever happened to the others.  Both scripts. *)
Theorem retry_bounded_and_batch_continues
        (parse : string -> JsDate.TimeValue)
        (envs : nat -> nat -> AttemptEnv) (fuel : nat)
        (arts : list Article.t) (db : Datastore) (pg : Page) :
  (maxAttempts <= fuel)%nat ->
  (exists vs db' pg',
      for_each (IndexJs.attempt parse) envs fuel 0 arts db pg
      = Some (vs, db', pg')
      /\ Spec.batch_ok envs arts db vs db')
  /\ (exists vs db' pg',
         for_each Part000.attempt envs fuel 0 arts db pg = Some (vs, db', pg')
         /\ Spec.batch_ok envs arts db vs db').
Proof.
  intros Hfuel. split.
  - eapply for_each_batch_ok;
      [apply attempt_index_shape | apply index_filled_same | exact Hfuel].
  - eapply for_each_batch_ok;
      [apply attempt_part_shape | apply part_filled_same | exact Hfuel].
Qed.

Lemma retry_bounded_and_batch_continues_witness :
  (exists vs db' pg',
      for_each (IndexJs.attempt Fixture.parse_one) Run.first_entry_down 3 0
               [Run.storm; Run.flood] [] blank_page
      = Some (vs, db', pg')
      /\ Spec.batch_ok Run.first_entry_down [Run.storm; Run.flood] [] vs db')
  /\ (exists vs db' pg',
         for_each Part000.attempt Run.first_entry_down 3 0
                  [Run.storm; Run.flood] [] blank_page
         = Some (vs, db', pg')
         /\ Spec.batch_ok Run.first_entry_down [Run.storm; Run.flood] [] vs db').
Proof.
  exact (retry_bounded_and_batch_continues
           Fixture.parse_one Run.first_entry_down 3
           [Run.storm; Run.flood] [] blank_page (le_n 3)).
Defined.

(** A batch whose first entry never loads: it is given up after three
    attempts and leaves no row, and the second entry is stored at its first
    attempt. *)
Example first_entry_down_run :
  exists vs db' pg',
    for_each (IndexJs.attempt Fixture.parse_one) Run.first_entry_down 3 0
             [Run.storm; Run.flood] [] blank_page
    = Some (vs, db', pg')
    /\ map succeeded vs = [false; true]
    /\ map attempts_made vs = [3; 1]%nat
    /\ map Row.slug db' = [Str "floodwarning"].
Proof.
  eexists _, _, _. split; [vm_compute; reflexivity|].
  now repeat split.
Qed.

(** C7 (as amended).  Whether an entry is attempted again depends on the
    navigation and on the INSERT alone: two runs of the loop whose
    navigations and INSERTs fare alike make the same number of attempts and
    reach the same verdict, whatever the field extractors find or fail to
    find; and the attempt that ends the loop is the first whose navigation
    and INSERT both succeed.  A failed INSERT, which comes after the
    navigation, does cause another attempt.  Both scripts. *)
Theorem retry_on_navigation_or_insert_only
        (parse : string -> JsDate.TimeValue)
        (env1 env2 : nat -> AttemptEnv) (fuel : nat)
        (a1 a2 : Article.t) (db1 db2 : Datastore) (pg1 pg2 : Page) :
  (maxAttempts <= fuel)%nat ->
  (forall k, goto_ok (env1 k) = goto_ok (env2 k)) ->
  (forall k, insert_ok (env1 k) = insert_ok (env2 k)) ->
  (exists l1 l2,
      visit (IndexJs.attempt parse) env1 fuel a1 db1 pg1 = Some l1
      /\ visit (IndexJs.attempt parse) env2 fuel a2 db2 pg2 = Some l2
      /\ success l1 = success l2
      /\ attempts l1 = attempts l2
      /\ forall j,
          (j < maxAttempts)%nat ->
          Spec.gets_through (env1 j) ->
          (forall i, (i < j)%nat -> ~ Spec.gets_through (env1 i)) ->
          attempts l1 = S j /\ success l1 = true)
  /\ (exists l1 l2,
         visit Part000.attempt env1 fuel a1 db1 pg1 = Some l1
         /\ visit Part000.attempt env2 fuel a2 db2 pg2 = Some l2
         /\ success l1 = success l2
         /\ attempts l1 = attempts l2
         /\ forall j,
             (j < maxAttempts)%nat ->
             Spec.gets_through (env1 j) ->
             (forall i, (i < j)%nat -> ~ Spec.gets_through (env1 i)) ->
             attempts l1 = S j /\ success l1 = true).
Proof.
  intros Hfuel Hgoto Hins. split.
  - destruct (visit_returns _ _ _ (attempt_index_shape parse)
                            env1 fuel a1 db1 pg1 Hfuel)
      as (l1 & Hl1 & _ & _ & Hs1 & Hn1).
    destruct (visit_returns _ _ _ (attempt_index_shape parse)
                            env2 fuel a2 db2 pg2 Hfuel)
      as (l2 & Hl2 & _ & _ & Hs2 & Hn2).
    exists l1, l2. split; [exact Hl1|]. split; [exact Hl2|].
    rewrite Hs1, Hs2, Hn1, Hn2. unfold Spec.outcome.
    destruct (outcome_control (Spec.index_filled parse) (Spec.index_filled parse)
                              env1 env2 Hgoto Hins maxAttempts 0 a1 a2)
      as [Hs Hn].
    split; [exact Hs|]. split; [exact Hn|].
    intros j Hj Hok Hbefore. split.
    + apply outcome_first_through; [lia | exact Hok|].
      intros i Hi. apply Hbefore. lia.
    + apply outcome_succeeded_iff. exists j. split; [lia | exact Hok].
  - destruct (visit_returns _ _ _ attempt_part_shape
                            env1 fuel a1 db1 pg1 Hfuel)
      as (l1 & Hl1 & _ & _ & Hs1 & Hn1).
    destruct (visit_returns _ _ _ attempt_part_shape
                            env2 fuel a2 db2 pg2 Hfuel)
      as (l2 & Hl2 & _ & _ & Hs2 & Hn2).
    exists l1, l2. split; [exact Hl1|]. split; [exact Hl2|].
    rewrite Hs1, Hs2, Hn1, Hn2. unfold Spec.outcome.
    destruct (outcome_control Spec.part_filled Spec.part_filled
                              env1 env2 Hgoto Hins maxAttempts 0 a1 a2)
      as [Hs Hn].
    split; [exact Hs|]. split; [exact Hn|].
    intros j Hj Hok Hbefore. split.
    + apply outcome_first_through; [lia | exact Hok|].
      intros i Hi. apply Hbefore. lia.
    + apply outcome_succeeded_iff. exists j. split; [lia | exact Hok].
Qed.

(** Two runs that differ in every extractor: an empty document against one
    with a dated [time] element; the INSERT fails once in both. *)
Lemma retry_on_navigation_or_insert_only_witness :
  exists l1 l2,
    visit (IndexJs.attempt Fixture.parse_one) Run.insert_fails_once 3
          Run.storm [] blank_page = Some l1
    /\ visit (IndexJs.attempt Fixture.parse_one)
             (fun k => Fixture.env true (negb (k =? 0)%nat) Run.dated) 3
             Run.flood [] blank_page = Some l2
    /\ success l1 = success l2
    /\ attempts l1 = attempts l2.
Proof.
  destruct (proj1 (retry_on_navigation_or_insert_only
                     Fixture.parse_one Run.insert_fails_once
                     (fun k => Fixture.env true (negb (k =? 0)%nat) Run.dated)
                     3 Run.storm Run.flood [] [] blank_page blank_page
                     (le_n 3) (fun _ => eq_refl) (fun _ => eq_refl)))
    as (l1 & l2 & H1 & H2 & Hs & Hn & _).
  exists l1, l2. repeat split; assumption.
Defined.

(** C7 fails as stated: the navigation of the first attempt succeeds, its
    INSERT fails, and the entry is attempted a second time. *)
Lemma insert_failure_is_retried :
  goto_ok (Run.insert_fails_once 0) = true
  /\ (exists l,
         visit (IndexJs.attempt Fixture.parse_one) Run.insert_fails_once 3
               Run.storm [] blank_page = Some l
         /\ attempts l = 2%nat /\ success l = true)
  /\ (exists l,
         visit Part000.attempt Run.insert_fails_once 3
               Run.storm [] blank_page = Some l
         /\ attempts l = 2%nat /\ success l = true).
Proof.
  split; [reflexivity|].
  split; (eexists; split; [vm_compute; reflexivity | now split]).
Qed.

(* ================================================================== *)
(** * The record of an entry that succeeded *)
(* ================================================================== *)

Section RecordFacts.

Variable attempt : AttemptEnv -> M unit.
Variable filled : AttemptEnv -> Article.t -> Article.t.
Variable seen : AttemptEnv -> Page.
Hypothesis shape : Spec.attempt_shape attempt filled seen.
Hypothesis filled_same : forall e a, Spec.same_entry (filled e a) a.

(** The loop returns, and the record of an entry that succeeded has the
    property [P] that every article the attempt fills in has. *)
Lemma visit_success_record
      (P : AttemptEnv -> Article.t -> Article.t -> Prop)
      (env : nat -> AttemptEnv) (fuel : nat) (a : Article.t)
      (db : Datastore) (pg : Page) :
  (forall e a', Spec.same_entry a' a -> P e a (filled e a')) ->
  (maxAttempts <= fuel)%nat ->
  exists l,
    visit attempt env fuel a db pg = Some l
    /\ (success l = true ->
        exists k,
          (k < maxAttempts)%nat
          /\ attempts l = S k
          /\ Spec.gets_through (env k)
          /\ P (env k) a (art (st l))).
Proof.
  intros HP Hfuel.
  destruct (visit_returns attempt filled seen shape env fuel a db pg Hfuel)
    as (l & Hl & Hart & _ & Hs & Hn).
  exists l. split; [exact Hl|].
  rewrite Hs, Hn, Hart. unfold Spec.outcome. intros Hok.
  destruct (outcome_record filled env filled_same _ _ _ Hok)
    as (k & a' & Hk & Hthrough & Hcount & Hsame & ->).
  exists k. split; [lia|]. split; [exact Hcount|]. split; [exact Hthrough|].
  now apply HP.
Qed.

End RecordFacts.

Lemma part_filled_defaults (e : AttemptEnv) (a a' : Article.t) :
  Spec.same_entry a' a ->
  Detail.part_defaults e a (Spec.part_filled e a').
Proof.
  intros (Hh & Hl & Hs). unfold Detail.part_defaults, Spec.part_filled.
  cbn [Article.body Article.summary Article.author Article.media Article.date
       Article.resource Article.id].
  split; [now repeat split|].
  split; [unfold Article.complete; cbn; auto 10 with records|].
  split; [now intros ->|].
  split; [intros ->; now rewrite Hl|].
  split; [now intros ->|].
  split; [now intros ->|].
  now repeat split.
Qed.



(** part_000 on a document without any text block: the paragraph query
    does not throw, the body is the citation block alone and the summary is
    the three dots. *)
Example no_text_block_part000 :
  exists l,
    visit Part000.attempt Run.all_fine 3 Run.storm [] blank_page = Some l
    /\ success l = true
    /\ Article.body (art (st l))
       = Str "<br><br><ul><li><a href='https://www.bbc.com/news/a1'>Visit BBC News</a></li></ul>"
    /\ Article.summary (art (st l)) = Str "...".
Proof. eexists. split; [vm_compute; reflexivity | now repeat split]. Qed.


(** C6 (as amended).  In index.js the date of a record is the ISO string of
    the time value parsed from the [datetime] attribute of the first [time]
    element when that attribute is present and parses, and the empty string
    when there is no [time] element or the attribute does not parse.  In
    part_000 the date is the ISO string of the clock at the attempt, whatever
    the document holds. *)
Theorem date_of_record
        (parse : string -> JsDate.TimeValue)
        (env : nat -> AttemptEnv) (fuel : nat) (a : Article.t)
        (db : Datastore) (pg : Page) :
  (maxAttempts <= fuel)%nat ->
  (exists l,
      visit (IndexJs.attempt parse) env fuel a db pg = Some l
      /\ (success l = true ->
          exists k,
            (k < maxAttempts)%nat
            /\ attempts l = S k
            /\ Spec.gets_through (env k)
            /\ Spec.index_date_ok parse (env k) (art (st l))))
  /\ (exists l,
         visit Part000.attempt env fuel a db pg = Some l
         /\ (success l = true ->
             exists k,
               (k < maxAttempts)%nat
               /\ attempts l = S k
               /\ Spec.gets_through (env k)
               /\ Article.date (art (st l))
                  = Str (JsDate.iso_of_ms (clock (env k))))).
Proof.
  intros Hfuel. split.
  - apply (visit_success_record _ _ _ (attempt_index_shape parse)
             (index_filled_same parse)
             (fun e _ r => Spec.index_date_ok parse e r));
      [|exact Hfuel].
    intros e a' _. apply index_filled_date.
  - apply (visit_success_record _ _ _ attempt_part_shape part_filled_same
             (fun e _ r => Article.date r = Str (JsDate.iso_of_ms (clock e))));
      [|exact Hfuel].
    reflexivity.
Qed.

Lemma date_of_record_witness :
  exists l,
    visit (IndexJs.attempt Fixture.parse_one)
          (fun _ => Fixture.env true true Run.dated) 3 Run.storm
          [] blank_page = Some l
    /\ (success l = true ->
        exists k,
          (k < maxAttempts)%nat
          /\ attempts l = S k
          /\ Spec.gets_through (Fixture.env true true Run.dated)
          /\ Spec.index_date_ok Fixture.parse_one
                                (Fixture.env true true Run.dated)
                                (art (st l))).
Proof.
  exact (proj1 (date_of_record
                  Fixture.parse_one (fun _ => Fixture.env true true Run.dated)
                  3 Run.storm [] blank_page (le_n 3))).
Defined.

(** On a document with a dated [time] element index.js stores the parsed
    time. *)
Example dated_run :
  exists l,
    visit (IndexJs.attempt Fixture.parse_one)
          (fun _ => Fixture.env true true Run.dated) 3 Run.storm
          [] blank_page = Some l
    /\ Article.date (art (st l)) = Str "2024-11-02T16:00:00.123Z".
Proof. eexists. split; [vm_compute; reflexivity | reflexivity]. Qed.

(** C6 fails as stated: on a document without any [time] element part_000
    stores a date all the same, the clock's. *)
Lemma date_without_time_element_part000 :
  Spec.first_match (dom (Run.all_fine 0)) "time"
                   (fun el => getAttribute el "datetime") = None
  /\ clock (Run.all_fine 0) = 1730563200123%Z
  /\ exists l,
      visit Part000.attempt Run.all_fine 3 Run.storm [] blank_page = Some l
      /\ success l = true
      /\ Article.date (art (st l)) = Str "2024-11-02T16:00:00.123Z".
Proof.
  split; [reflexivity|]. split; [reflexivity|].
  eexists. split; [vm_compute; reflexivity | now split].
Qed.

(** In index.js a [time] element without a [datetime] attribute yields the
    epoch: [getAttribute] returns [null], and [new Date(null)] is the time
    value 0. *)
Example date_of_time_without_datetime_index :
  exists l,
    visit (IndexJs.attempt Fixture.parse_one)
          (fun _ => Fixture.env true true Run.undated_time) 3 Run.storm
          [] blank_page = Some l
    /\ Article.date (art (st l)) = Str "1970-01-01T00:00:00.000Z".
Proof. eexists. split; [vm_compute; reflexivity | reflexivity]. Qed.

(* ================================================================== *)
(** * The sweep and the whole job *)
(* ================================================================== *)

Lemma sweep_keeps_other_sources (db : Datastore) :
  sweep "BBC News" db = filter Spec.of_other_source db.
Proof. reflexivity. Qed.

Lemma sweep_leaves_none_of_this_source (db : Datastore) :
  filter Spec.of_this_source (sweep "BBC News" db) = [].
Proof.
  rewrite sweep_keeps_other_sources. unfold Spec.of_other_source.
  induction db as [|r db IH]; cbn; [reflexivity|].
  destruct (Spec.of_this_source r) eqn:Hr; cbn; [exact IH|].
  now rewrite Hr.
Qed.

Lemma sweep_other_sources (db : Datastore) :
  filter Spec.of_other_source (sweep "BBC News" db)
  = filter Spec.of_other_source db.
Proof.
  rewrite sweep_keeps_other_sources.
  induction db as [|r db IH]; cbn; [reflexivity|].
  destruct (Spec.of_other_source r) eqn:Hr; cbn; [|exact IH].
  now rewrite Hr, IH.
Qed.

Lemma filter_this_source_all (rows : list Row.t) :
  Forall (fun r => Spec.of_this_source r = true) rows ->
  filter Spec.of_this_source rows = rows
  /\ filter Spec.of_other_source rows = [].
Proof.
  unfold Spec.of_other_source.
  induction 1 as [|r rows Hr _ [IH1 IH2]]; cbn; [now split|].
  rewrite Hr. cbn. now rewrite IH1, IH2.
Qed.

Section JobFacts.

Variable job : nat -> World -> Datastore -> option JobResult.
Hypothesis shape : Spec.job_shape job.

(** Two runs in a row: when the second reaches its sweep, the rows of this
    source are afterwards those the second run writes into an empty
    datastore, and the rows of other sources are those from before the
    first run. *)
Lemma two_runs (fuel : nat) (w1 w2 : World) (db0 : Datastore) :
  (maxAttempts <= fuel)%nat ->
  connect_ok w2 = true ->
  sweep_ok w2 = true ->
  exists r1 r2 r,
    job fuel w1 db0 = Some r1
    /\ job fuel w2 (final_db r1) = Some r2
    /\ job fuel w2 [] = Some r
    /\ filter Spec.of_this_source (final_db r2) = final_db r
    /\ filter Spec.of_other_source (final_db r2)
       = filter Spec.of_other_source db0.
Proof.
  intros Hfuel Hconnect Hsweep.
  destruct (shape fuel w1 Hfuel) as (rows1 & snap1 & out1 & Hrows1 & Hjob1).
  destruct (shape fuel w2 Hfuel) as (rows2 & snap2 & out2 & Hrows2 & Hjob2).
  rewrite Hconnect, Hsweep in Hjob2. cbn [andb] in Hjob2.
  destruct (filter_this_source_all rows1 Hrows1) as [_ Hother1].
  destruct (filter_this_source_all rows2 Hrows2) as [Hthis2 Hother2].
  eexists _, _, _.
  split; [apply Hjob1|]. split; [apply Hjob2|]. split; [apply Hjob2|].
  cbn [final_db]. rewrite !filter_app.
  rewrite sweep_leaves_none_of_this_source, sweep_other_sources.
  rewrite Hthis2, Hother2, app_nil_r. split; [reflexivity|].
  destruct (connect_ok w1 && sweep_ok w1); [|reflexivity].
  rewrite filter_app, sweep_other_sources, Hother1. now rewrite app_nil_r.
Qed.

End JobFacts.

Lemma index_filled_resource (parse : string -> JsDate.TimeValue)
      (e : AttemptEnv) (a : Article.t) :
  Article.resource (Spec.index_filled parse e a) = Str "BBC News".
Proof. reflexivity. Qed.

Lemma part_filled_resource (e : AttemptEnv) (a : Article.t) :
  Article.resource (Spec.part_filled e a) = Str "BBC News".
Proof. reflexivity. Qed.

Lemma job_index_shape (parse : string -> JsDate.TimeValue) :
  Spec.job_shape (IndexJs.job parse).
Proof.
  intros fuel w Hfuel. unfold IndexJs.job.
  destruct (connect_ok w); cbn [negb andb];
    [|exists [], None, ConnectFailed; split; [constructor | reflexivity]].
  destruct (sweep_ok w); cbn [negb];
    [|exists [], None, SweepFailed; split; [constructor | reflexivity]].
  destruct (browser_ok w); cbn [negb];
    [|exists [], None, BrowserFailed; split;
      [constructor | intros db; now rewrite app_nil_r]].
  destruct (IndexJs.load_listing w); cbn [negb];
    [|exists [], None, ListingLoadFailed; split;
      [constructor | intros db; now rewrite app_nil_r]].
  destruct (IndexJs.collect (listing_dom w)) as [articles|];
    [|exists [], None, CollectFailed; split;
      [constructor | intros db; now rewrite app_nil_r]].
  destruct (for_each_outcome _ _ _ (attempt_index_shape parse)
                             (visits w) fuel Hfuel articles 0 (listing_dom w))
    as [pg' Hrun].
  pose proof (inserted_tagged _ (visits w) (index_filled_same parse)
                              (index_filled_resource parse) articles 0)
    as Htagged.
  destruct (write_ok w).
  - eexists _, _, Completed. split; [exact Htagged|].
    intros db. now rewrite Hrun.
  - eexists _, _, SnapshotFailed. split; [exact Htagged|].
    intros db. now rewrite Hrun.
Qed.

Lemma job_part_shape : Spec.job_shape Part000.job.
Proof.
  intros fuel w Hfuel. unfold Part000.job.
  destruct (connect_ok w); cbn [negb andb];
    [|exists [], None, ConnectFailed; split; [constructor | reflexivity]].
  destruct (sweep_ok w); cbn [negb];
    [|exists [], None, SweepFailed; split; [constructor | reflexivity]].
  destruct (browser_ok w); cbn [negb];
    [|exists [], None, BrowserFailed; split;
      [constructor | intros db; now rewrite app_nil_r]].
  destruct (listing_goto_ok w); cbn [negb];
    [|exists [], None, ListingLoadFailed; split;
      [constructor | intros db; now rewrite app_nil_r]].
  destruct (Part000.collect (listing_dom w)) as [articles|];
    [|exists [], None, CollectFailed; split;
      [constructor | intros db; now rewrite app_nil_r]].
  destruct (List.length articles =? 0)%nat;
    [exists [], None, NoArticles; split;
      [constructor | intros db; now rewrite app_nil_r]|].
  destruct (for_each_outcome _ _ _ attempt_part_shape
                             (visits w) fuel Hfuel
                             (Part000.articlesWithSlugs w articles) 0
                             (listing_dom w))
    as [pg' Hrun].
  pose proof (inserted_tagged _ (visits w) part_filled_same
                              part_filled_resource
                              (Part000.articlesWithSlugs w articles) 0)
    as Htagged.
  destruct (write_ok w).
  - eexists _, _, Completed. split; [exact Htagged|].
    intros db. now rewrite Hrun.
  - eexists _, _, SnapshotFailed. split; [exact Htagged|].
    intros db. now rewrite Hrun.
Qed.

(** Two runs in a world where everything works: the stale row is gone, the
    row of the other source is kept, and each card of the listing has one
    row. *)
Example two_runs_of_fine_world :
  (exists r1 r2,
      IndexJs.job Fixture.parse_one 3 Run.fine_world
                  [Run.other_row; Run.stale_row] = Some r1
      /\ IndexJs.job Fixture.parse_one 3 Run.fine_world (final_db r1) = Some r2
      /\ outcome r2 = Completed
      /\ map Row.slug (final_db r2)
         = [Str "ratesheld"; Str "stormhitscoast"; Str "stormhitscoast"])
  /\ (exists r1 r2,
         Part000.job 3 Run.fine_world [Run.other_row; Run.stale_row] = Some r1
         /\ Part000.job 3 Run.fine_world (final_db r1) = Some r2
         /\ outcome r2 = Completed
         /\ map Row.slug (final_db r2)
            = [Str "ratesheld"; Str "stormhitscoast-cnb7f2mvyr";
               Str "stormhitscoast-cnb7f2mvyr"]).
Proof.
  split; (eexists _, _; split; [vm_compute; reflexivity|];
          split; [vm_compute; reflexivity | now split]).
Qed.

(* ================================================================== *)
(** * The media extractors *)
(* ================================================================== *)

(** [extractMedia] never gets to its second stage on a document without
    the primary image: the first query throws, and the [catch] returns the
    placeholder. *)
Lemma extractMedia_without_primary (s : St) :
  Spec.first_match (doc s) "img.p_holding_image" src = None ->
  Part000.extractMedia s = (s, Ok (Str default_image)).
Proof.
  unfold Part000.extractMedia, Spec.first_match, try_catch, bind, page_eval,
    ret.
  destruct (doc s "img.p_holding_image") as [[|el els]|];
    [reflexivity | discriminate | reflexivity].
Qed.

(** The second stage is reached when the primary image is there with an
    empty [src]. *)
Example extractMedia_empty_primary :
  Part000.extractMedia (mkSt Run.storm [] Run.empty_holding_image)
  = (mkSt Run.storm [] Run.empty_holding_image,
     Ok (Str "https://ichef.bbci.co.uk/poster.jpg")).
Proof. reflexivity. Qed.

(** C5, at a document whose only media is the poster of a video.  The
    attempt of either script asks [extractMainImage], which knows the [img]
    query alone, and stores the placeholder; [extractMedia], which no
    statement calls, returns the placeholder too. *)
Theorem media_poster_only_gives_placeholder :
  Spec.first_match Run.poster_only "video"
                   (fun video => getAttribute video "poster")
  = Some (Some "https://ichef.bbci.co.uk/poster.jpg")
  /\ (exists s',
         Part000.attempt (Fixture.env true true Run.poster_only)
                         (mkSt Run.storm [] blank_page) = (s', Ok tt)
         /\ Article.media (art s') = Str default_image)
  /\ (exists s',
         IndexJs.attempt Fixture.parse_one
                         (Fixture.env true true Run.poster_only)
                         (mkSt Run.storm [] blank_page) = (s', Ok tt)
         /\ Article.media (art s') = Str default_image)
  /\ Part000.extractMedia (mkSt Run.storm [] Run.poster_only)
     = (mkSt Run.storm [] Run.poster_only, Ok (Str default_image)).
Proof.
  split; [reflexivity|].
  split; [eexists; split; [vm_compute; reflexivity | reflexivity]|].
  split; [eexists; split; [vm_compute; reflexivity | reflexivity]|].
  now apply extractMedia_without_primary.
Qed.

(* ================================================================== *)
(** * Further facts about strings *)
(* ================================================================== *)

Lemma length_append (a b : string) :
  String.length (a ++ b) = (String.length a + String.length b)%nat.
Proof. induction a as [|x a IH]; simpl; [reflexivity | now rewrite IH]. Qed.

Lemma substring_whole (s : string) :
  forall k, (String.length s <= k)%nat -> substring 0 k s = s.
Proof.
  induction s as [|c s IH]; intros k Hk; destruct k; simpl in *;
    try reflexivity; try lia.
  rewrite IH by lia. reflexivity.
Qed.

Lemma substring_tail (s : string) :
  forall m,
    (m <= String.length s)%nat ->
    exists p,
      s = p ++ substring m (String.length s - m) s /\ String.length p = m.
Proof.
  induction s as [|c s IH]; intros m Hm.
  - exists "". simpl in *. destruct m; [now split | lia].
  - destruct m as [|m].
    + exists "". split; [|reflexivity].
      rewrite Nat.sub_0_r. now rewrite substring_whole.
    + simpl in Hm. destruct (IH m) as (p & Hp & Hlen); [lia|].
      exists (String c p). split; [|simpl; now rewrite Hlen].
      cbn [String.length Nat.sub substring]. cbn [append]. now rewrite <- Hp.
Qed.

(** [s.slice(-n)] is the end of [s], [n] code units long when [s] has as
    many. *)
Lemma slice_last_suffix (n : nat) (s : string) :
  exists p,
    s = p ++ JsString.slice_last n s
    /\ String.length (JsString.slice_last n s) = Nat.min n (String.length s).
Proof.
  unfold JsString.slice_last.
  destruct (Nat.le_gt_cases (String.length s) n) as [Hshort|Hlong].
  - replace (String.length s - n)%nat with 0%nat by lia.
    rewrite substring_whole by exact Hshort.
    exists "". split; [reflexivity | lia].
  - destruct (substring_tail s (String.length s - n)) as (p & Hp & Hlen);
      [lia|].
    replace (String.length s - (String.length s - n))%nat with n in Hp by lia.
    exists p. split; [exact Hp|].
    apply (f_equal String.length) in Hp. rewrite length_append in Hp. lia.
Qed.

Lemma append_same_length_inj (a1 a2 b1 b2 : string) :
  String.length a1 = String.length a2 ->
  a1 ++ b1 = a2 ++ b2 ->
  a1 = a2 /\ b1 = b2.
Proof.
  revert a2. induction a1 as [|x a1 IH]; intros [|y a2]; simpl;
    intros Hlen E; try discriminate.
  - now split.
  - inversion E; subst. destruct (IH a2) as [-> ->]; [lia | assumption|].
    now split.
Qed.

(** ** Base-36 digits *)

Lemma digit36_is_digit (d : N) :
  (d < 36)%N -> Props.is_digit36 (JsString.digit36 d) = true.
Proof.
  intros Hd. unfold Props.is_digit36, JsString.digit36.
  destruct (N.ltb_spec d 10).
  - rewrite N_ascii_embedding by lia.
    apply orb_true_iff. left. apply andb_true_iff.
    split; apply N.leb_le; lia.
  - rewrite N_ascii_embedding by lia.
    apply orb_true_iff. right. apply andb_true_iff.
    split; apply N.leb_le; lia.
Qed.

Lemma is_digit36_cases (c : ascii) :
  Props.is_digit36 c = true ->
  (48 <= N_of_ascii c <= 57)%N \/ (97 <= N_of_ascii c <= 122)%N.
Proof.
  unfold Props.is_digit36. intros H.
  apply orb_true_iff in H as [H|H]; apply andb_true_iff in H as [H1 H2];
    apply N.leb_le in H1; apply N.leb_le in H2; [left | right]; lia.
Qed.

Lemma digit_value_bound (c : ascii) :
  Props.is_digit36 c = true -> (Spec.digit_value c < 36)%N.
Proof.
  intros H. apply is_digit36_cases in H. unfold Spec.digit_value.
  destruct (N.ltb_spec (N_of_ascii c) 58); lia.
Qed.

Lemma digit_value_inj (c1 c2 : ascii) :
  Props.is_digit36 c1 = true ->
  Props.is_digit36 c2 = true ->
  Spec.digit_value c1 = Spec.digit_value c2 ->
  c1 = c2.
Proof.
  intros H1 H2 E.
  apply is_digit36_cases in H1. apply is_digit36_cases in H2.
  unfold Spec.digit_value in E.
  rewrite <- (ascii_N_embedding c1), <- (ascii_N_embedding c2).
  f_equal.
  destruct (N.ltb_spec (N_of_ascii c1) 58), (N.ltb_spec (N_of_ascii c2) 58);
    lia.
Qed.

Lemma to36_digits_all (fuel : nat) :
  forall n acc,
    Props.all_digits36 acc = true ->
    Props.all_digits36 (JsString.to36_digits fuel n acc) = true.
Proof.
  induction fuel as [|fuel IH]; intros n acc Hacc; cbn [JsString.to36_digits];
    [exact Hacc|].
  assert (Hhead :
            Props.all_digits36 (String (JsString.digit36 (n mod 36)) acc)
            = true).
  { cbn [Props.all_digits36]. rewrite digit36_is_digit, Hacc; [reflexivity|].
    apply N.mod_lt. lia. }
  destruct (n / 36 =? 0)%N; [exact Hhead | now apply IH].
Qed.

Lemma toString36_all_digits (n : N) :
  Props.all_digits36 (JsString.toString36 n) = true.
Proof. unfold JsString.toString36. now apply to36_digits_all. Qed.

Lemma all_digits36_app (p t : string) :
  Props.all_digits36 (p ++ t) = true ->
  Props.all_digits36 p = true /\ Props.all_digits36 t = true.
Proof.
  induction p as [|c p IH]; simpl; [now split|].
  intros H. apply andb_true_iff in H as [Hc Hrest].
  destruct (IH Hrest) as [Hp Ht]. now rewrite Hc, Hp.
Qed.

Lemma of36_bound (s : string) :
  Props.all_digits36 s = true ->
  (Spec.of36 s < 36 ^ N.of_nat (String.length s))%N.
Proof.
  induction s as [|c s IH]; [intros _; cbn; lia|].
  cbn [Props.all_digits36]. intros H. apply andb_true_iff in H as [Hc Hs].
  unfold Spec.of36 at 1. cbn [Spec.of36_from].
  rewrite of36_from_app. cbn [String.length].
  rewrite Nat2N.inj_succ, N.pow_succ_r by lia.
  pose proof (digit_value_bound c Hc). specialize (IH Hs). nia.
Qed.

Lemma of36_app (p t : string) :
  Spec.of36 (p ++ t)
  = (Spec.of36 p * 36 ^ N.of_nat (String.length t) + Spec.of36 t)%N.
Proof.
  unfold Spec.of36 at 1 2. generalize 0%N.
  induction p as [|c p IH]; intros acc; cbn [append Spec.of36_from].
  - apply of36_from_app.
  - apply IH.
Qed.

Lemma of36_inj (s1 : string) :
  forall s2,
    Props.all_digits36 s1 = true ->
    Props.all_digits36 s2 = true ->
    String.length s1 = String.length s2 ->
    Spec.of36 s1 = Spec.of36 s2 ->
    s1 = s2.
Proof.
  induction s1 as [|c1 s1 IH]; intros [|c2 s2]; simpl; intros H1 H2 Hlen E;
    try discriminate; [reflexivity|].
  apply andb_true_iff in H1 as [Hc1 Hs1].
  apply andb_true_iff in H2 as [Hc2 Hs2].
  injection Hlen as Hlen.
  unfold Spec.of36 in E. cbn [Spec.of36_from] in E.
  rewrite !of36_from_app, Hlen in E.
  pose proof (of36_bound s1 Hs1) as B1. pose proof (of36_bound s2 Hs2) as B2.
  rewrite Hlen in B1.
  pose proof (digit_value_bound c1 Hc1). pose proof (digit_value_bound c2 Hc2).
  assert (Hd : Spec.digit_value c1 = Spec.digit_value c2) by nia.
  assert (Hr : Spec.of36 s1 = Spec.of36 s2) by nia.
  rewrite (digit_value_inj c1 c2 Hc1 Hc2 Hd).
  now rewrite (IH s2 Hs1 Hs2 Hlen Hr).
Qed.

(* ================================================================== *)
(** * The suffix of a slug *)
(* ================================================================== *)

(** The time part of the suffix denotes the clock modulo [36^5]. *)
Lemma time_part_value (now : N) :
  Spec.of36 (JsString.slice_last 5 (JsString.toString36 now))
  = (now mod Props.suffix_period)%N.
Proof.
  unfold Props.suffix_period.
  destruct (slice_last_suffix 5 (JsString.toString36 now)) as (p & Hp & Hlen).
  set (t := JsString.slice_last 5 (JsString.toString36 now)) in *.
  pose proof (toString36_all_digits now) as Hall.
  rewrite Hp in Hall. apply all_digits36_app in Hall as [_ Ht].
  pose proof (of36_bound t Ht) as Hbound.
  pose proof (of36_toString36 now) as Hval.
  rewrite Hp, of36_app in Hval.
  destruct (Nat.le_gt_cases 5 (String.length (JsString.toString36 now)))
    as [Hlong|Hshort].
  - rewrite Nat.min_l in Hlen by exact Hlong. rewrite Hlen in *.
    change (N.of_nat 5) with 5%N in *.
    apply (N.mod_unique _ _ (Spec.of36 p)); [exact Hbound | lia].
  - rewrite Nat.min_r in Hlen by lia.
    assert (Hpnil : p = "").
    { apply (f_equal String.length) in Hp. rewrite length_append in Hp.
      destruct p; [reflexivity | simpl in Hp; lia]. }
    subst p. change (Spec.of36 "") with 0%N in Hval.
    rewrite N.mod_small; [lia|].
    assert (36 ^ N.of_nat (String.length t) <= 36 ^ 5)%N
      by (apply N.pow_le_mono_r; lia).
    lia.
Qed.

(** From [36^4] on the clock has five digits or more. *)
Lemma time_part_length (now : N) :
  (Props.five_digits_from <= now)%N ->
  String.length (JsString.slice_last 5 (JsString.toString36 now)) = 5%nat.
Proof.
  unfold Props.five_digits_from. intros Hnow.
  destruct (slice_last_suffix 5 (JsString.toString36 now)) as (_ & _ & ->).
  apply Nat.min_l.
  destruct (Nat.le_gt_cases 5 (String.length (JsString.toString36 now)))
    as [Hlong|Hshort]; [exact Hlong | exfalso].
  pose proof (of36_bound _ (toString36_all_digits now)) as Hbound.
  rewrite of36_toString36 in Hbound.
  assert (36 ^ N.of_nat (String.length (JsString.toString36 now)) <= 36 ^ 4)%N
    by (apply N.pow_le_mono_r; lia).
  lia.
Qed.

Lemma time_part_digits (now : N) :
  Props.all_digits36 (JsString.slice_last 5 (JsString.toString36 now)) = true.
Proof.
  destruct (slice_last_suffix 5 (JsString.toString36 now)) as (p & Hp & _).
  pose proof (toString36_all_digits now) as Hall.
  rewrite Hp in Hall. now apply all_digits36_app in Hall.
Qed.

Lemma time_part_eq_iff (now1 now2 : N) :
  (Props.five_digits_from <= now1)%N ->
  (Props.five_digits_from <= now2)%N ->
  JsString.slice_last 5 (JsString.toString36 now1)
  = JsString.slice_last 5 (JsString.toString36 now2)
  <-> (now1 mod Props.suffix_period = now2 mod Props.suffix_period)%N.
Proof.
  intros H1 H2. rewrite <- !time_part_value. split; [now intros ->|].
  apply of36_inj; try apply time_part_digits.
  now rewrite !time_part_length.
Qed.

Lemma uniquePart_eq_iff (now1 now2 : N) (r1 r2 : string) :
  (Props.five_digits_from <= now1)%N ->
  (Props.five_digits_from <= now2)%N ->
  Part000.uniquePart now1 r1 = Part000.uniquePart now2 r2
  <-> (now1 mod Props.suffix_period = now2 mod Props.suffix_period)%N
      /\ JsString.slice_last 5 r1 = JsString.slice_last 5 r2.
Proof.
  intros H1 H2. unfold Part000.uniquePart.
  rewrite <- (time_part_eq_iff now1 now2 H1 H2). split.
  - apply append_same_length_inj. now rewrite !time_part_length.
  - now intros [-> ->].
Qed.

(** X1.  For clock values of five base-36 digits or more (any time later
    than 28 minutes after the epoch), two slugs of [generateSlug] are equal
    exactly when the headlines have the same base, the two clock values are
    congruent modulo [36^5] milliseconds, and the random strings end in the
    same five characters.  So two calls in different milliseconds less than
    [36^5] ms (about 16.8 hours) apart never collide, whatever the random
    draws. *)
Theorem generateSlug_collision
        (now1 now2 : N) (r1 r2 h1 h2 l1 l2 : string) :
  (Props.five_digits_from <= now1)%N ->
  (Props.five_digits_from <= now2)%N ->
  Part000.generateSlug now1 r1 h1 l1 = Part000.generateSlug now2 r2 h2 l2
  <-> Part000.baseSlug h1 = Part000.baseSlug h2
      /\ (now1 mod Props.suffix_period = now2 mod Props.suffix_period)%N
      /\ JsString.slice_last 5 r1 = JsString.slice_last 5 r2.
Proof.
  intros H1 H2.
  rewrite generateSlug_eq_iff, (uniquePart_eq_iff now1 now2 r1 r2 H1 H2).
  tauto.
Qed.

Lemma generateSlug_collision_witness :
  Part000.generateSlug 1730563200123 "0.4fzyo82mvyr" "Storm hits coast" "a"
  = Part000.generateSlug (1730563200123 + 60466176) "0.zz82mvyr"
                         "STORM hits: coast" "b"
  <-> Part000.baseSlug "Storm hits coast" = Part000.baseSlug "STORM hits: coast"
      /\ (1730563200123 mod Props.suffix_period
          = (1730563200123 + 60466176) mod Props.suffix_period)%N
      /\ JsString.slice_last 5 "0.4fzyo82mvyr"
         = JsString.slice_last 5 "0.zz82mvyr".
Proof.
  apply (generateSlug_collision
           1730563200123 (1730563200123 + 60466176)
           "0.4fzyo82mvyr" "0.zz82mvyr"
           "Storm hits coast" "STORM hits: coast" "a" "b").
  - vm_compute. discriminate.
  - vm_compute. discriminate.
Defined.

(* ================================================================== *)
(** * The base of a slug *)
(* ================================================================== *)

Lemma strip_non_a_z_all (s : string) :
  Props.all_a_z (JsString.strip_non_a_z s) = true.
Proof.
  induction s as [|c s IH]; simpl; [reflexivity|].
  destruct (JsString.is_a_z c) eqn:Hc; [|exact IH].
  simpl. now rewrite Hc, IH.
Qed.

(** X2.  A slug base holds nothing but the letters [a-z] (no digit, no
    hyphen, no upper-case or accented letter), in index.js and in part_000;
    and the piece of a generated slug before its first hyphen is that
    base. *)
Theorem slug_base_alphabet
        (now : N) (random36 headline link : string) :
  Props.all_a_z (IndexJs.slug_of headline) = true
  /\ Props.all_a_z (Part000.baseSlug headline) = true
  /\ exists rest,
      JsString.split "-" (Part000.generateSlug now random36 headline link)
      = Part000.baseSlug headline :: rest.
Proof.
  split; [apply strip_non_a_z_all|]. split; [apply strip_non_a_z_all|].
  exists (JsString.split "-" (Part000.uniquePart now random36)).
  unfold Part000.generateSlug.
  apply (split_free_then_sep "-"). apply strip_non_a_z_no_hyphen.
Qed.

Lemma split_pieces_free (c : ascii) (s : string) :
  Forall (fun t => Spec.free_of c t = true) (JsString.split c s).
Proof.
  induction s as [|a s IH]; simpl; [repeat constructor|].
  destruct (Ascii.eqb a c) eqn:Hac; [constructor; [reflexivity | exact IH]|].
  destruct (JsString.split c s) as [|t ts]; [repeat constructor; simpl;
                                              now rewrite Hac|].
  inversion IH as [|? ? Ht Hts]; subst.
  constructor; [|exact Hts]. simpl. now rewrite Hac, Ht.
Qed.

Lemma Forall_firstn_keep {A} (P : A -> Prop) (l : list A) :
  forall n, Forall P l -> Forall P (firstn n l).
Proof.
  induction l as [|x l IH]; intros [|n] H; cbn; try constructor.
  - now inversion H.
  - apply IH. now inversion H.
Qed.

Lemma firstn_not_nil {A} (n : nat) (l : list A) :
  l <> [] -> firstn (S n) l <> [].
Proof. destruct l; [congruence | discriminate]. Qed.

(** X3.  A slug base reads the first three space-separated words of the
    headline and nothing else: the base of a headline is the base of its
    first three words joined by spaces. *)
Theorem slug_base_first_three_words (headline : string) :
  Part000.baseSlug headline
  = Part000.baseSlug
      (JsString.join " " (firstn 3 (JsString.split " " headline)))
  /\ IndexJs.slug_of headline
     = IndexJs.slug_of
         (JsString.join " " (firstn 3 (JsString.split " " headline))).
Proof.
  assert (H : JsString.split " "
                (JsString.join " " (firstn 3 (JsString.split " " headline)))
              = firstn 3 (JsString.split " " headline)).
  { apply split_join.
    - apply firstn_not_nil, split_not_nil.
    - apply Forall_firstn_keep, split_pieces_free. }
  unfold Part000.baseSlug, IndexJs.slug_of, JsString.slice0.
  rewrite H, firstn_firstn. now split.
Qed.

Lemma lower_char_space (c : ascii) :
  Ascii.eqb (JsString.lower_char c) " " = Ascii.eqb c " ".
Proof.
  destruct c as [[] [] [] [] [] [] [] []]; reflexivity.
Qed.

Lemma toLowerCase_append (a b : string) :
  JsString.toLowerCase (a ++ b)
  = JsString.toLowerCase a ++ JsString.toLowerCase b.
Proof. induction a as [|c a IH]; simpl; [reflexivity | now rewrite IH]. Qed.

(** Lower-casing commutes with splitting at spaces. *)
Lemma split_toLowerCase (s : string) :
  JsString.split " " (JsString.toLowerCase s)
  = map JsString.toLowerCase (JsString.split " " s).
Proof.
  induction s as [|c s IH]; cbn [JsString.toLowerCase JsString.split];
    [reflexivity|].
  rewrite lower_char_space, IH.
  destruct (Ascii.eqb c " "); [reflexivity|].
  destruct (JsString.split " " s); reflexivity.
Qed.

Lemma toLowerCase_join_empty (l : list string) :
  JsString.toLowerCase (JsString.join "" l)
  = JsString.join "" (map JsString.toLowerCase l).
Proof.
  unfold JsString.join.
  induction l as [|t l IH]; [reflexivity|].
  destruct l as [|t' l]; [reflexivity|].
  change (String.concat "" (t :: t' :: l))
    with (t ++ "" ++ String.concat "" (t' :: l)).
  change (String.concat "" (map JsString.toLowerCase (t :: t' :: l)))
    with (JsString.toLowerCase t ++ ""
          ++ String.concat "" (map JsString.toLowerCase (t' :: l))).
  cbn [append]. now rewrite toLowerCase_append, IH.
Qed.

(** The base computed from the lower-cased headline. *)
Lemma baseSlug_of_lower (headline : string) :
  Part000.baseSlug headline
  = JsString.strip_non_a_z
      (JsString.join ""
         (firstn 3 (JsString.split " " (JsString.toLowerCase headline)))).
Proof.
  unfold Part000.baseSlug, JsString.slice0.
  now rewrite toLowerCase_join_empty, split_toLowerCase, firstn_map.
Qed.

(** X4.  The slug base does not see letter case: two headlines that are
    equal once lower-cased have the same base, in part_000 and in
    index.js. *)
Theorem slug_base_ignores_case (h1 h2 : string) :
  JsString.toLowerCase h1 = JsString.toLowerCase h2 ->
  Part000.baseSlug h1 = Part000.baseSlug h2
  /\ IndexJs.slug_of h1 = IndexJs.slug_of h2.
Proof.
  intros E.
  assert (H : Part000.baseSlug h1 = Part000.baseSlug h2)
    by (now rewrite !baseSlug_of_lower, E).
  split; [exact H | exact H].
Qed.

Lemma slug_base_ignores_case_witness :
  Part000.baseSlug "Storm HITS Coast today"
  = Part000.baseSlug "stORM hits coast today"
  /\ IndexJs.slug_of "Storm HITS Coast today"
     = IndexJs.slug_of "stORM hits coast today".
Proof.
  apply (slug_base_ignores_case
           "Storm HITS Coast today" "stORM hits coast today").
  reflexivity.
Defined.

(* ================================================================== *)
(** * More on the body-wrapping transform and the summary *)
(* ================================================================== *)

(** X5.  [processBody] of index.js returns the empty string exactly when
    both the body and the link are falsy (empty, [null] or [undefined]);
    for every other pair of arguments the output is not empty. *)
Theorem processBody_index_empty_iff (body link : JsVal) (resource : string) :
  IndexJs.processBody body link resource = ""
  <-> Js.truthy body = false /\ Js.truthy link = false.
Proof.
  unfold IndexJs.processBody.
  destruct body as [| |[|b bs]], link as [| |[|l ls]]; cbn;
    split; try (intros [? ?]); try discriminate; try reflexivity;
    try (now split).
Qed.

Lemma join_empty_app (l1 l2 : list string) :
  JsString.join "" (l1 ++ l2) = JsString.join "" l1 ++ JsString.join "" l2.
Proof.
  unfold JsString.join.
  induction l1 as [|t l1 IH]; [reflexivity|].
  destruct l1 as [|t' l1].
  - cbn [app String.concat]. destruct l2 as [|u l2].
    + now rewrite append_empty_r.
    + reflexivity.
  - change (String.concat "" ((t :: t' :: l1) ++ l2))
      with (t ++ String.concat "" ((t' :: l1) ++ l2)).
    change (String.concat "" (t :: t' :: l1))
      with (t ++ String.concat "" (t' :: l1)).
    now rewrite IH, append_assoc_s.
Qed.

Lemma wrapped_app (ps1 ps2 : list string) :
  Props.wrapped (ps1 ++ ps2) = Props.wrapped ps1 ++ Props.wrapped ps2.
Proof. unfold Props.wrapped. now rewrite map_app, join_empty_app. Qed.

Lemma wrapped_includes (ps : list string) (p : string) :
  In p ps -> JsString.includes (Props.wrapped ps) ("<p>" ++ p ++ "</p>").
Proof.
  intros Hin. apply in_split in Hin as (before & after & ->).
  exists (Props.wrapped before), (Props.wrapped after).
  change (before ++ p :: after)%list with (before ++ [p] ++ after)%list.
  now rewrite !wrapped_app.
Qed.

(** X6.  [processBody] of part_000 returns the wrapped paragraphs followed
    by the citation block: every paragraph occurs inside its paragraph
    delimiters, the citation block comes last, and wrapping a list of
    paragraphs in two parts amounts to prefixing the wrapped first part to
    the output for the second. *)
Theorem processBody_part_structure
        (ps1 ps2 : list string) (link : JsVal) (resource : string) :
  Part000.processBody (ps1 ++ ps2) link resource
  = Props.wrapped ps1 ++ Part000.processBody ps2 link resource
  /\ Part000.processBody ps2 link resource
     = Props.wrapped ps2 ++ Spec.citation (Js.interp link) resource
  /\ forall p,
      In p ps2 ->
      JsString.includes (Props.wrapped ps2) ("<p>" ++ p ++ "</p>").
Proof.
  split; [|split].
  - unfold Part000.processBody.
    fold (Props.wrapped (ps1 ++ ps2)). fold (Props.wrapped ps2).
    now rewrite wrapped_app, append_assoc_s.
  - reflexivity.
  - intros p. apply wrapped_includes.
Qed.

Lemma length_split (c : ascii) (s : string) :
  List.length (JsString.split c s) = S (Props.count_char c s).
Proof.
  induction s as [|a s IH]; simpl; [reflexivity|].
  destruct (Ascii.eqb a c); simpl; [now rewrite IH|].
  destruct (JsString.split c s) as [|t ts]; simpl in *; [discriminate|].
  exact IH.
Qed.

Lemma count_char_append (c : ascii) (a b : string) :
  Props.count_char c (a ++ b)
  = (Props.count_char c a + Props.count_char c b)%nat.
Proof. induction a as [|x a IH]; simpl; [reflexivity | rewrite IH; lia]. Qed.

Lemma count_char_free (c : ascii) (t : string) :
  Spec.free_of c t = true -> Props.count_char c t = 0%nat.
Proof.
  induction t as [|a t IH]; simpl; [reflexivity|].
  intros H. apply andb_prop in H as [Ha Ht].
  destruct (Ascii.eqb a c); [discriminate | now apply IH].
Qed.

(** Tokens without the separator, joined: one separator between any two. *)
Lemma count_char_join (c : ascii) (l : list string) :
  Forall (fun t => Spec.free_of c t = true) l ->
  Props.count_char c (JsString.join (String c "") l)
  = (List.length l - 1)%nat.
Proof.
  unfold JsString.join.
  induction l as [|t l IH]; intros H; [reflexivity|].
  inversion H as [|? ? Ht Hl]; subst.
  destruct l as [|t' l]; [simpl; now apply count_char_free|].
  change (String.concat (String c "") (t :: t' :: l))
    with (t ++ String c (String.concat (String c "") (t' :: l))).
  rewrite count_char_append, (count_char_free c t Ht).
  cbn [Props.count_char]. rewrite Ascii.eqb_refl, (IH Hl). simpl. lia.
Qed.

(** The join of a list is the join of its first part followed by the
    rest. *)
Lemma join_firstn_prefix (sep : string) (l : list string) (n : nat) :
  exists rest,
    JsString.join sep l = JsString.join sep (firstn n l) ++ rest
    /\ ((List.length l <= n)%nat -> rest = "").
Proof.
  unfold JsString.join. revert n.
  induction l as [|t l IH]; intros n.
  - exists "". destruct n; now split.
  - destruct n as [|n].
    + exists (String.concat sep (t :: l)). split; [reflexivity|].
      simpl. lia.
    + destruct (IH n) as (rest & Hrest & Hall).
      destruct l as [|t' l].
      * exists "". cbn. destruct n; cbn; now rewrite append_empty_r.
      * destruct n as [|n].
        -- exists (sep ++ String.concat sep (t' :: l)).
           split; [reflexivity | simpl; lia].
        -- exists rest. split; [|intros H; apply Hall; simpl in *; lia].
           change (String.concat sep (t :: t' :: l))
             with (t ++ sep ++ String.concat sep (t' :: l)).
           change (String.concat sep (firstn (S (S n)) (t :: t' :: l)))
             with (t ++ sep ++ String.concat sep (firstn (S n) (t' :: l))).
           rewrite Hrest. now rewrite !append_assoc_s.
Qed.

Lemma summary_leading_part (text : string) :
  Props.leading_part
    text
    (JsString.join " " (JsString.slice0 25 (JsString.split " " text)) ++ "...").
Proof.
  unfold JsString.slice0.
  destruct (join_firstn_prefix " " (JsString.split " " text) 25)
    as (rest & Hrest & Hall).
  rewrite join_split in Hrest.
  exists (JsString.join " " (firstn 25 (JsString.split " " text))), rest.
  split; [reflexivity|]. split; [exact Hrest|]. split.
  - rewrite count_char_join
      by (apply Forall_firstn_keep, split_pieces_free).
    pose proof (firstn_le_length 25 (JsString.split " " text)). lia.
  - intros Hfew. apply Hall. rewrite length_split. lia.
Qed.

(** X7.  The summary is the leading part of the text it is made from,
    followed by three dots: what it keeps is a prefix of the text with at
    most 24 spaces (25 space-separated words), and the whole text when that
    has no more.  The text is the body in index.js (when not empty) and the
    paragraphs joined by spaces in part_000. *)
Theorem summary_keeps_leading_words
        (body : string) (paragraphs : list string) :
  body <> "" ->
  (exists summary,
      IndexJs.summary_of (Str body) = Ok summary
      /\ Props.leading_part body summary)
  /\ Props.leading_part (JsString.join " " paragraphs)
                        (Part000.summary_of paragraphs).
Proof.
  intros Hbody. split; [|apply summary_leading_part].
  eexists. split; [|apply summary_leading_part].
  unfold IndexJs.summary_of. cbn [Js.truthy Js.receiver].
  destruct body; [congruence | reflexivity].
Qed.

Lemma summary_keeps_leading_words_witness :
  (exists summary,
      IndexJs.summary_of (Str "Storm hits coast") = Ok summary
      /\ Props.leading_part "Storm hits coast" summary)
  /\ Props.leading_part (JsString.join " " ["Storm hits"; "coast"])
                        (Part000.summary_of ["Storm hits"; "coast"]).
Proof.
  apply (summary_keeps_leading_words "Storm hits coast"
                                     ["Storm hits"; "coast"]).
  discriminate.
Defined.

(* ================================================================== *)
(** * More on the media extractors *)
(* ================================================================== *)

Lemma default_image_not_empty : default_image <> "".
Proof. discriminate. Qed.

Lemma truthy_not_empty (s : string) : JsString.truthy s = true -> s <> "".
Proof. destruct s; [discriminate | discriminate]. Qed.


(** X9.  The order of [extractMedia]'s stages.  A primary image with a
    non-empty [src] wins over everything else.  When the primary image is
    there with an empty [src], the poster of the first video is returned if
    it is not empty, and otherwise the [src] of the image inside that video
    if there is one and it is not empty. *)
Theorem extractMedia_priority (s : St) (img : Element) (imgs : list Element) :
  doc s "img.p_holding_image" = Ok (img :: imgs) ->
  (src img <> "" -> Part000.extractMedia s = (s, Ok (Str (src img))))
  /\ (src img = "" ->
      forall video videos,
        doc s "video" = Ok (video :: videos) ->
        (forall poster,
            getAttribute video "poster" = Some poster ->
            poster <> "" ->
            Part000.extractMedia s = (s, Ok (Str poster)))
        /\ (forall inner,
               Props.falsy_attr (getAttribute video "poster") ->
               querySelector video "img" = Some inner ->
               src inner <> "" ->
               Part000.extractMedia s = (s, Ok (Str (src inner))))).
Proof.
  intros Hprimary.
  unfold Part000.extractMedia, try_catch, bind, page_eval, ret.
  rewrite Hprimary. split.
  - intros Hsrc. destruct (src img) as [|c rest]; [congruence|]. reflexivity.
  - intros -> video videos Hvideo. cbn [Js.truthy JsString.truthy negb].
    rewrite Hvideo. split.
    + intros poster -> Hposter.
      destruct poster as [|c rest]; [congruence|]. reflexivity.
    + intros inner Hfalsy -> Hinner.
      destruct (src inner) as [|c rest] eqn:Hsrc; [congruence|].
      destruct Hfalsy as [-> | ->]; cbn; now rewrite Hsrc.
Qed.

Lemma extractMedia_priority_witness :
  Part000.extractMedia (mkSt Run.storm [] Run.empty_holding_image)
  = (mkSt Run.storm [] Run.empty_holding_image,
     Ok (Str "https://ichef.bbci.co.uk/poster.jpg")).
Proof.
  apply (proj2 (extractMedia_priority
                  (mkSt Run.storm [] Run.empty_holding_image)
                  (Fixture.text_element "") [] eq_refl)
               eq_refl
               (Fixture.video_with_poster "https://ichef.bbci.co.uk/poster.jpg")
               [] eq_refl).
  - reflexivity.
  - discriminate.
Defined.

(* ================================================================== *)
(** * The listing collectors *)
(* ================================================================== *)

Lemma map_res_ok {A B} (f : A -> Res B) (l : list A) :
  forall ys,
    map_res f l = Ok ys -> Forall2 (fun x y => f x = Ok y) l ys.
Proof.
  induction l as [|x l IH]; cbn; intros ys H.
  - injection H as <-. constructor.
  - destruct (f x) as [y|] eqn:Hx; [|discriminate].
    destruct (map_res f l) as [ys'|]; [|discriminate].
    injection H as <-. constructor; [exact Hx | now apply IH].
Qed.

Lemma map_res_threw {A B} (f : A -> Res B) (l : list A) :
  map_res f l = Threw <-> exists x, In x l /\ f x = Threw.
Proof.
  induction l as [|x l IH]; cbn.
  - split; [discriminate | intros (? & [] & _)].
  - destruct (f x) as [y|] eqn:Hx.
    + destruct (map_res f l) as [ys|].
      * split; [discriminate|].
        intros (x' & [<-|Hin] & Hx'); [congruence|].
        assert (E : Ok ys = @Threw (list B))
          by (apply IH; now exists x').
        discriminate E.
      * split; [|reflexivity]. intros _.
        destruct (proj1 IH eq_refl) as (x' & Hin & Hx').
        exists x'. split; [now right | exact Hx'].
    + split; [|reflexivity]. intros _. exists x. split; [now left | exact Hx].
Qed.

Lemma collect_item_index_threw (item : Element) :
  IndexJs.collect_item item = Threw
  <-> getAttribute item "href" = None
      \/ querySelector item IndexJs.card_headline_selector = None.
Proof.
  unfold IndexJs.collect_item.
  destruct (getAttribute item "href");
    destruct (querySelector item IndexJs.card_headline_selector); cbn;
    split; intros H; try discriminate; try reflexivity;
    try (destruct H; discriminate); auto.
Qed.

(** X10.  The collector of index.js is all or nothing: it returns one
    candidate per matched card, in the order of the cards, or it throws as a
    whole, and it throws exactly when some matched card has no [href] or no
    headline element. *)
Theorem collect_index_all_or_nothing (listing : Page) (items : list Element) :
  listing IndexJs.listing_selector = Ok items ->
  (forall arts,
      IndexJs.collect listing = Ok arts ->
      Forall2 (fun item a => IndexJs.collect_item item = Ok a) items arts)
  /\ (IndexJs.collect listing = Threw
      <-> exists item,
          In item items
          /\ (getAttribute item "href" = None
              \/ querySelector item IndexJs.card_headline_selector = None)).
Proof.
  intros Hquery. unfold IndexJs.collect. rewrite Hquery. split.
  - apply map_res_ok.
  - rewrite map_res_threw. split; intros (item & Hin & H); exists item;
      (split; [exact Hin | now apply collect_item_index_threw]).
Qed.

Lemma collect_index_all_or_nothing_witness :
  (forall arts,
      IndexJs.collect Run.listing = Ok arts ->
      Forall2 (fun item a => IndexJs.collect_item item = Ok a)
              Fixture.twin_cards arts)
  /\ (IndexJs.collect Run.listing = Threw
      <-> exists item,
          In item Fixture.twin_cards
          /\ (getAttribute item "href" = None
              \/ querySelector item IndexJs.card_headline_selector = None)).
Proof.
  exact (collect_index_all_or_nothing Run.listing Fixture.twin_cards eq_refl).
Defined.

Lemma in_filter_non_null {A} (l : list (option A)) (x : A) :
  In x (filter_non_null l) <-> In (Some x) l.
Proof.
  induction l as [|[y|] l IH]; cbn; [tauto | |].
  - rewrite IH. split; intros [H|H]; auto; left; congruence.
  - rewrite IH. split; [auto | intros [H|H]; [discriminate | exact H]].
Qed.

Lemma length_filter_non_null {A} (l : list (option A)) :
  (List.length (filter_non_null l) <= List.length l)%nat.
Proof. induction l as [|[y|] l IH]; cbn; lia. Qed.

(** What the callback of part_000 returns for a card, in terms of the
    card's headline element and [href]. *)
Lemma collect_item_part_some (item : Element) (e : Part000.Entry) :
  Part000.collect_item item = Some e
  <-> exists h href,
      querySelector item Part000.card_headline_selector = Some h
      /\ getAttribute item "href" = Some href
      /\ href <> ""
      /\ e = Part000.mkEntry (JsString.trim (innerText h))
                             ("https://www.bbc.com" ++ JsString.trim href).
Proof.
  unfold Part000.collect_item. split.
  - destruct (querySelector item Part000.card_headline_selector) as [h|];
      [|discriminate].
    destruct (getAttribute item "href") as [href|]; [|discriminate].
    destruct href as [|c href]; cbn [JsString.truthy]; [discriminate|].
    intros [= <-]. exists h, (String c href).
    repeat split; try reflexivity. discriminate.
  - intros (h & href & -> & -> & Hhref & ->).
    destruct href as [|c href]; [congruence | reflexivity].
Qed.

Lemma collect_item_part_none (item : Element) :
  Part000.collect_item item = None
  <-> (querySelector item Part000.card_headline_selector = None
       \/ getAttribute item "href" = None
       \/ getAttribute item "href" = Some "").
Proof.
  unfold Part000.collect_item.
  destruct (querySelector item Part000.card_headline_selector) as [h|].
  - destruct (getAttribute item "href") as [[|c href]|];
      cbn [JsString.truthy].
    + split; auto.
    + split; [discriminate|].
      intros [H | [H | H]]; discriminate H.
    + split; auto.
  - split; auto.
Qed.

Lemma collect_item_part_keeps (item : Element) :
  Detail.part_keeps item
  = match Part000.collect_item item with Some _ => true | None => false end.
Proof.
  unfold Detail.part_keeps, Part000.collect_item.
  destruct (querySelector item Part000.card_headline_selector); [|reflexivity].
  destruct (getAttribute item "href") as [href|]; [|reflexivity].
  now destruct (JsString.truthy href).
Qed.

Lemma length_collect_part (items : list Element) :
  List.length (filter_non_null (map Part000.collect_item items))
  = List.length (filter Detail.part_keeps items).
Proof.
  induction items as [|item items IH]; [reflexivity|].
  cbn [map filter]. rewrite collect_item_part_keeps.
  destruct (Part000.collect_item item); cbn; now rewrite IH.
Qed.

(** X11.  The collector of part_000 does not throw on a malformed card.  A
    matched card gives an entry exactly when it has a headline element
    ([h2[data-testid=card-headline]]) and an [href] attribute that is not
    the empty string; the entry is then the trimmed text of that element
    and [https://www.bbc.com] followed by the trimmed [href].  A card
    without the headline element, without the attribute or with an empty
    attribute is dropped, so there is one entry for each well-formed card
    and never more entries than cards. *)
Theorem collect_part_drops_malformed (listing : Page) (items : list Element) :
  listing Part000.listing_selector = Ok items ->
  exists entries,
    Part000.collect listing = Ok entries
    /\ (List.length entries <= List.length items)%nat
    /\ List.length entries = List.length (filter Detail.part_keeps items)
    /\ (forall item,
           In item items ->
           (querySelector item Part000.card_headline_selector = None
            \/ getAttribute item "href" = None
            \/ getAttribute item "href" = Some "") ->
           Detail.part_keeps item = false
           /\ Part000.collect_item item = None)
    /\ (forall e,
           In e entries
           <-> exists item h href,
               In item items
               /\ querySelector item Part000.card_headline_selector = Some h
               /\ getAttribute item "href" = Some href
               /\ href <> ""
               /\ e = Part000.mkEntry
                        (JsString.trim (innerText h))
                        ("https://www.bbc.com" ++ JsString.trim href)).
Proof.
  intros Hquery. unfold Part000.collect. rewrite Hquery.
  eexists. split; [reflexivity|]. split; [|split; [|split]].
  - rewrite <- (length_map Part000.collect_item items).
    apply length_filter_non_null.
  - apply length_collect_part.
  - intros item _ Hbad. apply collect_item_part_none in Hbad.
    rewrite collect_item_part_keeps, Hbad. now split.
  - intros e. rewrite in_filter_non_null, in_map_iff. split.
    + intros (item & Hitem & Hin).
      apply collect_item_part_some in Hitem.
      destruct Hitem as (h & href & Hh & Hhref & Hne & ->).
      exists item, h, href. repeat split; assumption.
    + intros (item & h & href & Hin & Hh & Hhref & Hne & ->).
      exists item. split; [|exact Hin].
      apply collect_item_part_some. exists h, href. repeat split; assumption.
Qed.

(** A listing of four matched elements: one without headline element and
    without [href], one well-formed card, one card with an empty [href] and
    one link without headline element.  Only the well-formed card gives an
    entry. *)
Lemma collect_part_drops_malformed_witness :
  exists entries,
    Part000.collect Detail.mixed_listing = Ok entries
    /\ entries = [ Part000.mkEntry "Storm hits coast"
                                   "https://www.bbc.com/news/a1" ]
    /\ List.length entries
       = List.length (filter Detail.part_keeps Detail.mixed_cards)
    /\ Detail.part_keeps (Fixture.text_element "Weather") = false
    /\ Detail.part_keeps (Fixture.card "Flood warning" "") = false
    /\ Detail.part_keeps (Detail.bare_link "/news/a3") = false
    /\ (forall e,
           In e entries
           <-> exists item h href,
               In item Detail.mixed_cards
               /\ querySelector item Part000.card_headline_selector = Some h
               /\ getAttribute item "href" = Some href
               /\ href <> ""
               /\ e = Part000.mkEntry
                        (JsString.trim (innerText h))
                        ("https://www.bbc.com" ++ JsString.trim href)).
Proof.
  destruct (collect_part_drops_malformed
              Detail.mixed_listing Detail.mixed_cards eq_refl)
    as (entries & Hcollect & _ & Hlength & Hdrop & Hin).
  exists entries.
  split; [exact Hcollect|].
  split; [vm_compute in Hcollect; now injection Hcollect as <-|].
  split; [exact Hlength|].
  split; [apply Hdrop; [cbn; auto | left; reflexivity]|].
  split; [apply Hdrop; [cbn; auto | right; right; reflexivity]|].
  split; [apply Hdrop; [cbn; auto | left; reflexivity]|].
  exact Hin.
Defined.

(** X12.  On a card the two collectors agree wherever both accept it: a
    card part_000 keeps is a card index.js turns into a candidate with the
    same headline and link, and a card index.js accepts is kept by part_000
    with that headline and link unless its [href] is empty. *)
Theorem collectors_agree (item : Element) :
  (forall e,
      Part000.collect_item item = Some e ->
      exists a,
        IndexJs.collect_item item = Ok a
        /\ Article.headline a = Part000.headline e
        /\ Article.link a = Part000.link e)
  /\ (forall a,
         IndexJs.collect_item item = Ok a ->
         getAttribute item "href" <> Some "" ->
         Part000.collect_item item
         = Some (Part000.mkEntry (Article.headline a) (Article.link a))).
Proof.
  unfold Part000.collect_item, IndexJs.collect_item.
  change Part000.card_headline_selector with IndexJs.card_headline_selector.
  destruct (querySelector item IndexJs.card_headline_selector) as [h|];
    destruct (getAttribute item "href") as [href|]; cbn;
    split; intros x H; try discriminate.
  - destruct (JsString.truthy href); [|discriminate].
    injection H as <-. eexists. split; [reflexivity | now split].
  - intros Hhref. injection H as <-. cbn.
    destruct href; [congruence | reflexivity].
Qed.

Lemma collectors_agree_witness :
  Part000.collect_item (Fixture.card "Storm hits coast" "/news/a1")
  = Some (Part000.mkEntry "Storm hits coast" "https://www.bbc.com/news/a1").
Proof.
  apply (proj2 (collectors_agree (Fixture.card "Storm hits coast" "/news/a1"))
               (Article.candidate "Storm hits coast"
                                  "https://www.bbc.com/news/a1"
                                  "stormhitscoast")).
  - reflexivity.
  - discriminate.
Defined.

(** ** Trimmed text *)

Lemma trim_end_cons (c : ascii) (rest : string) :
  JsString.trim_end (String c rest)
  = match JsString.trim_end rest with
    | EmptyString =>
        if JsString.is_space c then EmptyString else String c EmptyString
    | kept => String c kept
    end.
Proof. reflexivity. Qed.

Lemma trim_end_idem (s : string) :
  JsString.trim_end (JsString.trim_end s) = JsString.trim_end s.
Proof.
  induction s as [|c s IH]; [reflexivity|].
  rewrite trim_end_cons.
  destruct (JsString.trim_end s) as [|k kept] eqn:Hkept.
  - destruct (JsString.is_space c) eqn:Hc; [reflexivity|].
    rewrite trim_end_cons. cbn [JsString.trim_end]. now rewrite Hc.
  - rewrite trim_end_cons, IH. reflexivity.
Qed.

Lemma trim_start_head (s : string) :
  JsString.trim_start s = ""
  \/ exists c rest,
      JsString.trim_start s = String c rest /\ JsString.is_space c = false.
Proof.
  induction s as [|c s IH]; cbn [JsString.trim_start]; [now left|].
  destruct (JsString.is_space c) eqn:Hc; [exact IH|].
  right. now exists c, s.
Qed.

Lemma trim_end_keeps_head (c : ascii) (rest : string) :
  JsString.is_space c = false ->
  exists rest', JsString.trim_end (String c rest) = String c rest'.
Proof.
  intros Hc. cbn [JsString.trim_end]. rewrite Hc.
  destruct (JsString.trim_end rest); eexists; reflexivity.
Qed.

(** Trimming what is trimmed changes nothing. *)
Lemma trim_idem (s : string) :
  JsString.trim (JsString.trim s) = JsString.trim s.
Proof.
  unfold JsString.trim.
  destruct (trim_start_head s) as [->|(c & rest & -> & Hc)]; [reflexivity|].
  destruct (trim_end_keeps_head c rest Hc) as [rest' Hrest'].
  rewrite Hrest'. cbn [JsString.trim_start]. rewrite Hc.
  rewrite <- Hrest'. apply trim_end_idem.
Qed.

Lemma prefix_append (p s : string) : String.prefix p (p ++ s) = true.
Proof.
  induction p as [|c p IH]; [now destruct s|].
  cbn. destruct (ascii_dec c c); [exact IH | congruence].
Qed.

(** X13.  Every candidate either collector returns has an absolute link,
    one that starts with the site's origin, and a headline that trimming
    leaves as it is: no white space at either end. *)
Theorem collected_fields_are_clean (item : Element) :
  (forall a,
      IndexJs.collect_item item = Ok a ->
      String.prefix "https://www.bbc.com" (Article.link a) = true
      /\ JsString.trim (Article.headline a) = Article.headline a)
  /\ (forall e,
         Part000.collect_item item = Some e ->
         String.prefix "https://www.bbc.com" (Part000.link e) = true
         /\ JsString.trim (Part000.headline e) = Part000.headline e).
Proof.
  unfold Part000.collect_item, IndexJs.collect_item.
  change Part000.card_headline_selector with IndexJs.card_headline_selector.
  destruct (querySelector item IndexJs.card_headline_selector) as [h|];
    destruct (getAttribute item "href") as [href|]; cbn [option_map];
    split; intros x H; try discriminate.
  - injection H as <-. cbn [Article.link Article.headline Article.candidate].
    split; [exact (prefix_append "https://www.bbc.com" (JsString.trim href))
           | apply trim_idem].
  - destruct (JsString.truthy href); [|discriminate].
    injection H as <-. cbn [Part000.link Part000.headline].
    split; [exact (prefix_append "https://www.bbc.com" (JsString.trim href))
           | apply trim_idem].
Qed.

Lemma collected_fields_are_clean_witness :
  String.prefix "https://www.bbc.com" "https://www.bbc.com/news/a1" = true
  /\ JsString.trim "Storm hits coast" = "Storm hits coast".
Proof.
  exact (proj1 (collected_fields_are_clean
                  (Fixture.card "  Storm hits coast " " /news/a1"))
               (Article.candidate "Storm hits coast"
                                  "https://www.bbc.com/news/a1"
                                  "stormhitscoast")
               eq_refl).
Defined.

(* ================================================================== *)
(** * More on the retry loop *)
(* ================================================================== *)

Section MoreOutcomeFacts.

Variable filled : AttemptEnv -> Article.t -> Article.t.
Variable env : nat -> AttemptEnv.

(** When no navigation resolves, the article object stays as it was. *)
Lemma outcome_never_loads :
  forall n k a,
    (forall j, (k <= j < k + n)%nat -> goto_ok (env j) = false) ->
    Spec.outcome_from filled env n k a = mkVisit a false (k + n).
Proof.
  induction n as [|n IH]; intros k a Hdown; cbn [Spec.outcome_from].
  - now rewrite Nat.add_0_r.
  - rewrite Hdown by lia. rewrite IH.
    + f_equal. lia.
    + intros j Hj. apply Hdown. lia.
Qed.

Hypothesis filled_entry_only :
  forall e a a', Spec.same_entry a' a -> filled e a' = filled e a.
Hypothesis filled_same : forall e a, Spec.same_entry (filled e a) a.

(** The record of an entry that succeeded is what its last attempt alone
    makes of the candidate. *)
Lemma outcome_record_fresh :
  forall a,
    succeeded (Spec.outcome filled env a) = true ->
    exists k,
      (k < maxAttempts)%nat
      /\ Spec.gets_through (env k)
      /\ attempts_made (Spec.outcome filled env a) = S k
      /\ visited (Spec.outcome filled env a) = filled (env k) a.
Proof.
  intros a Hok. unfold Spec.outcome in *.
  destruct (outcome_record filled env filled_same _ _ _ Hok)
    as (k & a' & Hk & Hthrough & Hcount & Hsame & Hv).
  exists k. split; [lia|]. split; [exact Hthrough|]. split; [exact Hcount|].
  rewrite Hv. now apply filled_entry_only.
Qed.

(** One attempt that gets through, on its own. *)
Lemma outcome_single (e : AttemptEnv) (a : Article.t) :
  Spec.gets_through e ->
  Spec.outcome filled (fun _ => e) a = mkVisit (filled e a) true 1.
Proof.
  intros [Hgoto Hins]. unfold Spec.outcome. cbn [maxAttempts Spec.outcome_from].
  now rewrite Hgoto, Hins.
Qed.

End MoreOutcomeFacts.

Lemma index_filled_entry_only (parse : string -> JsDate.TimeValue)
      (e : AttemptEnv) (a a' : Article.t) :
  Spec.same_entry a' a ->
  Spec.index_filled parse e a' = Spec.index_filled parse e a.
Proof.
  intros (Hh & Hl & Hs). unfold Spec.index_filled. now rewrite Hh, Hl, Hs.
Qed.

Lemma part_filled_entry_only (e : AttemptEnv) (a a' : Article.t) :
  Spec.same_entry a' a -> Spec.part_filled e a' = Spec.part_filled e a.
Proof.
  intros (Hh & Hl & Hs). unfold Spec.part_filled. now rewrite Hh, Hl, Hs.
Qed.

Section MoreVisitFacts.

Variable attempt : AttemptEnv -> M unit.
Variable filled : AttemptEnv -> Article.t -> Article.t.
Variable seen : AttemptEnv -> Page.
Hypothesis shape : Spec.attempt_shape attempt filled seen.
Hypothesis filled_entry_only :
  forall e a a', Spec.same_entry a' a -> filled e a' = filled e a.
Hypothesis filled_same : forall e a, Spec.same_entry (filled e a) a.

Lemma visit_never_loads (env : nat -> AttemptEnv) (fuel : nat)
      (a : Article.t) (db : Datastore) (pg : Page) :
  (maxAttempts <= fuel)%nat ->
  (forall k, (k < maxAttempts)%nat -> goto_ok (env k) = false) ->
  exists l,
    visit attempt env fuel a db pg = Some l
    /\ art (st l) = a
    /\ store (st l) = db
    /\ success l = false
    /\ attempts l = maxAttempts.
Proof.
  intros Hfuel Hdown.
  destruct (visit_returns attempt filled seen shape env fuel a db pg Hfuel)
    as (l & Hl & Hart & Hstore & Hs & Hn).
  exists l. split; [exact Hl|].
  unfold Spec.outcome in *.
  rewrite (outcome_never_loads filled env maxAttempts 0 a) in *
    by (intros j Hj; apply Hdown; lia).
  cbn [visited succeeded attempts_made Spec.rows_of] in *.
  rewrite app_nil_r in Hstore. now repeat split.
Qed.

Lemma visit_last_attempt_alone (env : nat -> AttemptEnv) (fuel : nat)
      (a : Article.t) (db : Datastore) (pg : Page) :
  (maxAttempts <= fuel)%nat ->
  exists l,
    visit attempt env fuel a db pg = Some l
    /\ (success l = true ->
        exists k,
          (k < maxAttempts)%nat
          /\ attempts l = S k
          /\ forall db' pg',
              exists l',
                visit attempt (fun _ => env k) fuel a db' pg' = Some l'
                /\ success l' = true
                /\ attempts l' = 1%nat
                /\ art (st l') = art (st l)).
Proof.
  intros Hfuel.
  destruct (visit_returns attempt filled seen shape env fuel a db pg Hfuel)
    as (l & Hl & Hart & _ & Hs & Hn).
  exists l. split; [exact Hl|]. rewrite Hs, Hn, Hart. intros Hok.
  destruct (outcome_record_fresh filled env filled_entry_only filled_same a Hok)
    as (k & Hk & Hthrough & Hcount & Hv).
  exists k. split; [exact Hk|]. split; [exact Hcount|].
  intros db' pg'.
  destruct (visit_returns attempt filled seen shape (fun _ => env k)
                          fuel a db' pg' Hfuel)
    as (l' & Hl' & Hart' & _ & Hs' & Hn').
  exists l'. split; [exact Hl'|].
  rewrite (outcome_single filled (env k) a Hthrough) in *.
  cbn [visited succeeded attempts_made] in *.
  rewrite Hs', Hn', Hart', Hv. now repeat split.
Qed.

(** Each entry of a batch fares as it would alone. *)
Lemma for_each_entries_alone (envs : nat -> nat -> AttemptEnv) (fuel : nat)
      (arts : list Article.t) (db : Datastore) (pg : Page) :
  (maxAttempts <= fuel)%nat ->
  exists vs db' pg',
    for_each attempt envs fuel 0 arts db pg = Some (vs, db', pg')
    /\ forall i v,
        nth_error vs i = Some v ->
        exists a,
          nth_error arts i = Some a
          /\ forall db1 pg1,
              exists l,
                visit attempt (envs i) fuel a db1 pg1 = Some l
                /\ art (st l) = visited v
                /\ success l = succeeded v
                /\ attempts l = attempts_made v.
Proof.
  intros Hfuel.
  destruct (for_each_outcome attempt filled seen shape envs fuel Hfuel arts 0 pg)
    as [pg' Hrun].
  eexists _, _, pg'. split; [apply Hrun|].
  intros i v Hv. apply outcomes_nth in Hv as (a & Ha & ->).
  exists a. split; [exact Ha|]. intros db1 pg1.
  destruct (visit_returns attempt filled seen shape (envs i) fuel a db1 pg1 Hfuel)
    as (l & Hl & Hart & _ & Hs & Hn).
  exists l. cbn [Nat.add]. now repeat split.
Qed.

End MoreVisitFacts.

(** X14.  An entry none of whose navigations resolves is left as the
    listing gave it: after exactly 3 attempts the loop ends without success,
    the article object has no field beyond headline, link and slug, and the
    datastore is as before.  Both scripts. *)
Theorem unreachable_entry_untouched
        (parse : string -> JsDate.TimeValue)
        (env : nat -> AttemptEnv) (fuel : nat) (a : Article.t)
        (db : Datastore) (pg : Page) :
  (maxAttempts <= fuel)%nat ->
  (forall k, (k < maxAttempts)%nat -> goto_ok (env k) = false) ->
  (exists l,
      visit (IndexJs.attempt parse) env fuel a db pg = Some l
      /\ art (st l) = a
      /\ store (st l) = db
      /\ success l = false
      /\ attempts l = maxAttempts)
  /\ (exists l,
         visit Part000.attempt env fuel a db pg = Some l
         /\ art (st l) = a
         /\ store (st l) = db
         /\ success l = false
         /\ attempts l = maxAttempts).
Proof.
  intros Hfuel Hdown. split.
  - now apply (visit_never_loads _ _ _ (attempt_index_shape parse)).
  - now apply (visit_never_loads _ _ _ attempt_part_shape).
Qed.

Lemma unreachable_entry_untouched_witness :
  (exists l,
      visit (IndexJs.attempt Fixture.parse_one) Run2.never_loads 3 Run.storm
            [Run.other_row] blank_page = Some l
      /\ art (st l) = Run.storm
      /\ store (st l) = [Run.other_row]
      /\ success l = false
      /\ attempts l = maxAttempts)
  /\ (exists l,
         visit Part000.attempt Run2.never_loads 3 Run.storm
               [Run.other_row] blank_page = Some l
         /\ art (st l) = Run.storm
         /\ store (st l) = [Run.other_row]
         /\ success l = false
         /\ attempts l = maxAttempts).
Proof.
  exact (unreachable_entry_untouched
           Fixture.parse_one Run2.never_loads 3 Run.storm
           [Run.other_row] blank_page (le_n 3) (fun _ _ => eq_refl)).
Defined.

(** X15.  The record of an entry that succeeded owes nothing to the
    attempts that failed before: it is the record the loop produces, at its
    first attempt, when every attempt gets the answers of the attempt that
    succeeded, whatever datastore and page the loop starts from.  Both
    scripts. *)
Theorem record_from_last_attempt_alone
        (parse : string -> JsDate.TimeValue)
        (env : nat -> AttemptEnv) (fuel : nat) (a : Article.t)
        (db : Datastore) (pg : Page) :
  (maxAttempts <= fuel)%nat ->
  (exists l,
      visit (IndexJs.attempt parse) env fuel a db pg = Some l
      /\ (success l = true ->
          exists k,
            (k < maxAttempts)%nat
            /\ attempts l = S k
            /\ forall db' pg',
                exists l',
                  visit (IndexJs.attempt parse) (fun _ => env k) fuel a db' pg'
                  = Some l'
                  /\ success l' = true
                  /\ attempts l' = 1%nat
                  /\ art (st l') = art (st l)))
  /\ (exists l,
         visit Part000.attempt env fuel a db pg = Some l
         /\ (success l = true ->
             exists k,
               (k < maxAttempts)%nat
               /\ attempts l = S k
               /\ forall db' pg',
                   exists l',
                     visit Part000.attempt (fun _ => env k) fuel a db' pg'
                     = Some l'
                     /\ success l' = true
                     /\ attempts l' = 1%nat
                     /\ art (st l') = art (st l))).
Proof.
  intros Hfuel. split.
  - apply (visit_last_attempt_alone _ _ _ (attempt_index_shape parse)
             (index_filled_entry_only parse) (index_filled_same parse));
      exact Hfuel.
  - apply (visit_last_attempt_alone _ _ _ attempt_part_shape
             part_filled_entry_only part_filled_same);
      exact Hfuel.
Qed.

Lemma record_from_last_attempt_alone_witness :
  exists l,
    visit (IndexJs.attempt Fixture.parse_one) Run.insert_fails_once 3
          Run.storm [] blank_page = Some l
    /\ (success l = true ->
        exists k,
          (k < maxAttempts)%nat
          /\ attempts l = S k
          /\ forall db' pg',
              exists l',
                visit (IndexJs.attempt Fixture.parse_one)
                      (fun _ => Run.insert_fails_once k) 3 Run.storm db' pg'
                = Some l'
                /\ success l' = true
                /\ attempts l' = 1%nat
                /\ art (st l') = art (st l)).
Proof.
  exact (proj1 (record_from_last_attempt_alone
                  Fixture.parse_one Run.insert_fails_once 3 Run.storm
                  [] blank_page (le_n 3))).
Defined.



Lemma index_filled_extracted (parse : string -> JsDate.TimeValue)
      (e : AttemptEnv) (a a' : Article.t) :
  Spec.same_entry a' a ->
  Props.index_extracted e a (Spec.index_filled parse e a').
Proof.
  intros (Hh & Hl & Hs). unfold Props.index_extracted, Spec.index_filled.
  cbn [Article.body Article.summary Article.author Article.media].
  split; [|split].
  - intros text -> Htext. cbn [Spec.or_default]. rewrite Hl.
    destruct text as [|c text]; [congruence|].
    split; [|reflexivity].
    unfold IndexJs.processBody, Spec.citation.
    cbn [Js.truthy Js.not_null JsString.truthy negb Js.interp].
    rewrite !andb_false_r. cbn.
    rewrite ?append_assoc_s. reflexivity.
  - now intros name ->.
  - now intros url ->.
Qed.

Lemma part_filled_extracted (e : AttemptEnv) (a a' : Article.t) :
  Spec.same_entry a' a ->
  Props.part_extracted e a (Spec.part_filled e a').
Proof.
  intros (Hh & Hl & Hs). unfold Props.part_extracted, Spec.part_filled.
  cbn [Article.body Article.summary Article.author Article.media].
  split; [|split].
  - intros ps ->. now rewrite Hl.
  - now intros name ->.
  - now intros url ->.
Qed.

(** X17.  Where the extractors succeed, the record of an entry whose
    ingestion succeeds holds what they returned.  In index.js a non-empty
    article text is wrapped in one paragraph element followed by one
    citation block, and summarized from that text; in part_000 the
    paragraphs are wrapped one by one before the citation block and the
    summary is made from them; the byline and the address of the first image
    are stored as found. *)
Theorem record_holds_extracted_values
        (parse : string -> JsDate.TimeValue)
        (env : nat -> AttemptEnv) (fuel : nat) (a : Article.t)
        (db : Datastore) (pg : Page) :
  (maxAttempts <= fuel)%nat ->
  (exists l,
      visit (IndexJs.attempt parse) env fuel a db pg = Some l
      /\ (success l = true ->
          exists k,
            (k < maxAttempts)%nat
            /\ attempts l = S k
            /\ Spec.gets_through (env k)
            /\ Props.index_extracted (env k) a (art (st l))))
  /\ (exists l,
         visit Part000.attempt env fuel a db pg = Some l
         /\ (success l = true ->
             exists k,
               (k < maxAttempts)%nat
               /\ attempts l = S k
               /\ Spec.gets_through (env k)
               /\ Props.part_extracted (env k) a (art (st l)))).
Proof.
  intros Hfuel. split.
  - apply (visit_success_record _ _ _ (attempt_index_shape parse)
             (index_filled_same parse) Props.index_extracted);
      [|exact Hfuel].
    intros e a' Hsame. now apply index_filled_extracted.
  - apply (visit_success_record _ _ _ attempt_part_shape
             part_filled_same Props.part_extracted);
      [|exact Hfuel].
    intros e a' Hsame. now apply part_filled_extracted.
Qed.

Lemma record_holds_extracted_values_witness :
  exists l,
    visit (IndexJs.attempt Fixture.parse_one) Run2.third_time_lucky 3
          Run.storm [] blank_page = Some l
    /\ (success l = true ->
        exists k,
          (k < maxAttempts)%nat
          /\ attempts l = S k
          /\ Spec.gets_through (Run2.third_time_lucky k)
          /\ Props.index_extracted (Run2.third_time_lucky k) Run.storm
                                   (art (st l))).
Proof.
  exact (proj1 (record_holds_extracted_values
                  Fixture.parse_one Run2.third_time_lucky 3 Run.storm
                  [] blank_page (le_n 3))).
Defined.

(** The third attempt of that run stores the trimmed text, wrapped and cited
    once. *)
Example third_time_lucky_run :
  exists l,
    visit (IndexJs.attempt Fixture.parse_one) Run2.third_time_lucky 3
          Run.storm [] blank_page = Some l
    /\ attempts l = 3%nat
    /\ Article.body (art (st l))
       = Str ("<p>Rain is due.</p>"
              ++ Spec.citation "https://www.bbc.com/news/a1" "BBC News")
    /\ Article.summary (art (st l)) = Str "Rain is due...."
    /\ Article.author (art (st l)) = Str "Jo Bloggs"
    /\ Article.media (art (st l)) = Str "https://ichef.bbci.co.uk/a.jpg".
Proof. eexists. split; [vm_compute; reflexivity | now repeat split]. Qed.

(* ================================================================== *)
(** * More on the whole job *)
(* ================================================================== *)

Lemma job_index_closed (parse : string -> JsDate.TimeValue)
      (fuel : nat) (w : World) (db : Datastore) :
  (maxAttempts <= fuel)%nat ->
  IndexJs.job parse fuel w db
  = Some (Props.job_closed (Spec.index_filled parse) w
                           (Props.index_candidates w) db).
Proof.
  intros Hfuel. unfold IndexJs.job, Props.job_closed, Props.index_candidates.
  destruct (connect_ok w); cbn [negb]; [|reflexivity].
  destruct (sweep_ok w); cbn [negb]; [|reflexivity].
  destruct (browser_ok w); cbn [negb]; [|reflexivity].
  destruct (IndexJs.load_listing w); cbn [negb]; [|reflexivity].
  destruct (IndexJs.collect (listing_dom w)) as [articles|]; [|reflexivity].
  destruct (for_each_outcome _ _ _ (attempt_index_shape parse)
                             (visits w) fuel Hfuel articles 0 (listing_dom w))
    as [pg' Hrun].
  rewrite Hrun. cbn zeta. now destruct (write_ok w).
Qed.

Lemma job_part_closed (fuel : nat) (w : World) (db : Datastore) :
  (maxAttempts <= fuel)%nat ->
  Part000.job fuel w db
  = Some (Props.job_closed Spec.part_filled w (Props.part_candidates w) db).
Proof.
  intros Hfuel. unfold Part000.job, Props.job_closed, Props.part_candidates.
  destruct (connect_ok w); cbn [negb]; [|reflexivity].
  destruct (sweep_ok w); cbn [negb]; [|reflexivity].
  destruct (browser_ok w); cbn [negb]; [|reflexivity].
  destruct (listing_goto_ok w); cbn [negb]; [|reflexivity].
  destruct (Part000.collect (listing_dom w)) as [articles|]; [|reflexivity].
  destruct (List.length articles =? 0)%nat; [reflexivity|].
  destruct (for_each_outcome _ _ _ attempt_part_shape
                             (visits w) fuel Hfuel
                             (Part000.articlesWithSlugs w articles) 0
                             (listing_dom w))
    as [pg' Hrun].
  rewrite Hrun. cbn zeta. now destruct (write_ok w).
Qed.

Lemma index_candidates_early (w : World) (out : Outcome) :
  Props.index_candidates w = inl out -> Props.ended_early out.
Proof.
  unfold Props.index_candidates, Props.ended_early.
  destruct (browser_ok w); cbn [negb]; [|intros [= <-]; tauto].
  destruct (IndexJs.load_listing w); cbn [negb]; [|intros [= <-]; tauto].
  destruct (IndexJs.collect (listing_dom w)); [discriminate|].
  intros [= <-]. tauto.
Qed.

Lemma part_candidates_early (w : World) (out : Outcome) :
  Props.part_candidates w = inl out -> Props.ended_early out.
Proof.
  unfold Props.part_candidates, Props.ended_early.
  destruct (browser_ok w); cbn [negb]; [|intros [= <-]; tauto].
  destruct (listing_goto_ok w); cbn [negb]; [|intros [= <-]; tauto].
  destruct (Part000.collect (listing_dom w)) as [articles|];
    [|intros [= <-]; tauto].
  destruct (List.length articles =? 0)%nat; [|discriminate].
  intros [= <-]. tauto.
Qed.

Lemma inserted_from_visits (vs : list Visit) (row : Row.t) :
  In row (Spec.inserted vs) ->
  exists v,
    In v vs /\ succeeded v = true /\ row = Row.of_article (visited v).
Proof.
  unfold Spec.inserted. intros Hin.
  apply in_flat_map in Hin as (v & Hv & Hrow).
  exists v. unfold Spec.rows_of in Hrow.
  destruct (succeeded v); [|contradiction].
  destruct Hrow as [<-|[]]. now repeat split.
Qed.

Lemma length_inserted (vs : list Visit) :
  (List.length (Spec.inserted vs) <= List.length vs)%nat.
Proof.
  unfold Spec.inserted, Spec.rows_of.
  induction vs as [|v vs IH]; cbn; [lia|].
  rewrite length_app. destruct (succeeded v); cbn; lia.
Qed.

Section ClosedJobFacts.

Variable filled : AttemptEnv -> Article.t -> Article.t.
Hypothesis filled_same : forall e a, Spec.same_entry (filled e a) a.

Lemma job_closed_result_ok (w : World) (reached : Outcome + list Article.t)
      (db : Datastore) :
  (forall out, reached = inl out -> Props.ended_early out) ->
  Props.job_result_ok db (Props.job_closed filled w reached db).
Proof.
  intros Hearly. unfold Props.job_closed, Props.job_result_ok.
  destruct (connect_ok w); cbn [negb]; [|now split].
  destruct (sweep_ok w); cbn [negb]; [|now split].
  destruct reached as [out|candidates].
  - cbn [outcome final_db snapshot].
    destruct (Hearly out eq_refl) as [-> | [-> | [-> | ->]]]; now split.
  - cbn zeta. destruct (write_ok w); cbn [outcome final_db snapshot].
    + eexists _, _. split; [reflexivity|]. split; [reflexivity|].
      intros row Hrow.
      apply inserted_from_visits in Hrow as (v & Hv & _ & ->).
      exists (visited v). split; [now apply in_map | reflexivity].
    + split; [reflexivity|]. now eexists.
Qed.

Lemma outcomes_same_entries (envs : nat -> nat -> AttemptEnv)
      (arts : list Article.t) :
  forall i,
    Forall2 Spec.same_entry (map visited (Spec.outcomes filled envs i arts))
            arts.
Proof.
  induction arts as [|a arts IH]; intros i; cbn [Spec.outcomes map];
    constructor.
  - unfold Spec.outcome. now apply outcome_same_entry.
  - apply IH.
Qed.

Lemma job_closed_snapshot (w : World) (candidates : list Article.t)
      (db : Datastore) :
  connect_ok w = true ->
  sweep_ok w = true ->
  write_ok w = true ->
  exists arts,
    outcome (Props.job_closed filled w (inr candidates) db) = Completed
    /\ snapshot (Props.job_closed filled w (inr candidates) db) = Some arts
    /\ Forall2 Spec.same_entry arts candidates
    /\ (List.length (final_db (Props.job_closed filled w (inr candidates) db))
        <= List.length (sweep "BBC News" db) + List.length candidates)%nat.
Proof.
  intros Hconnect Hsweep Hwrite. unfold Props.job_closed.
  rewrite Hconnect, Hsweep, Hwrite. cbn [negb outcome snapshot final_db].
  eexists. split; [reflexivity|]. split; [reflexivity|].
  split; [apply outcomes_same_entries|].
  rewrite length_app.
  pose proof (length_inserted (Spec.outcomes filled (visits w) 0 candidates)).
  rewrite outcomes_length in H. lia.
Qed.

Hypothesis filled_row_complete :
  forall e a, Props.row_complete (Row.of_article (filled e a)).
Hypothesis filled_resource :
  forall e a, Article.resource (filled e a) = Str "BBC News".

Lemma sweep_subset (db : Datastore) (row : Row.t) :
  In row (sweep "BBC News" db) -> In row db.
Proof. unfold sweep. intros H. now apply filter_In in H. Qed.

Lemma job_closed_rows (w : World) (reached : Outcome + list Article.t)
      (db : Datastore) (row : Row.t) :
  In row (final_db (Props.job_closed filled w reached db)) ->
  In row db
  \/ (Props.row_complete row /\ Row.resource row = Str "BBC News").
Proof.
  unfold Props.job_closed.
  destruct (connect_ok w); cbn [negb]; [|now left].
  destruct (sweep_ok w); cbn [negb]; [|now left].
  destruct reached as [out|candidates].
  - cbn [final_db]. intros H. left. now apply sweep_subset.
  - cbn zeta.
    assert (Hrows :
              In row (sweep "BBC News" db
                      ++ Spec.inserted
                           (Spec.outcomes filled (visits w) 0 candidates))%list ->
              In row db
              \/ (Props.row_complete row
                  /\ Row.resource row = Str "BBC News")).
    { intros H. apply in_app_or in H as [H|H]; [left; now apply sweep_subset|].
      right. apply inserted_from_visits in H as (v & Hv & Hok & ->).
      apply In_nth_error in Hv as (i & Hi).
      apply outcomes_nth in Hi as (a & _ & ->).
      unfold Spec.outcome in *.
      destruct (outcome_record filled _ filled_same _ _ _ Hok)
        as (k & a' & _ & _ & _ & _ & ->).
      split; [apply filled_row_complete|].
      unfold Row.of_article. cbn [Row.resource]. apply filled_resource. }
    destruct (write_ok w); exact Hrows.
Qed.

End ClosedJobFacts.

Lemma or_empty_is_string (s : string) : Js.is_string (Js.or (Str s) (Str "")).
Proof.
  unfold Js.or. destruct (Js.truthy (Str s)); apply is_string_Str.
Qed.

#[local] Hint Resolve or_empty_is_string : records.

Lemma index_filled_row_complete (parse : string -> JsDate.TimeValue)
      (e : AttemptEnv) (a : Article.t) :
  Props.row_complete (Row.of_article (Spec.index_filled parse e a)).
Proof.
  unfold Props.row_complete, Row.of_article, Spec.index_filled.
  cbn. auto 12 with records.
Qed.

Lemma part_filled_row_complete (e : AttemptEnv) (a : Article.t) :
  Props.row_complete (Row.of_article (Spec.part_filled e a)).
Proof.
  unfold Props.row_complete, Row.of_article, Spec.part_filled.
  cbn. auto 12 with records.
Qed.



(** A listing page that does not load: the stale row of this source is
    deleted all the same, and nothing is written. *)
Example listing_down_run :
  IndexJs.job Fixture.parse_one 3
              (mkWorld true true true false (Ok false) true blank_page
                       (fun _ => 0%N) (fun _ => "0.1") (fun _ => Run.all_fine)
                       true)
              [Run.other_row; Run.stale_row]
  = Some (mkJobResult [Run.other_row] None ListingLoadFailed).
Proof. reflexivity. Qed.

Lemma length_map_indexed {A B} (f : nat -> A -> B) (l : list A) :
  forall i, List.length (map_indexed f i l) = List.length l.
Proof.
  induction l as [|x l IH]; intros i; cbn; [reflexivity | now rewrite IH].
Qed.

(** X19.  When the collaborators work (connection, sweep, browser, listing
    page, snapshot file), the run completes and its snapshot holds one
    article object per candidate of the listing, in the order of the
    listing and with the candidate's headline, link and slug, whether or not
    the entry could be ingested; and the datastore gains at most one row per
    candidate.  Both scripts; in part_000 the listing must not be empty. *)
Theorem snapshot_lists_every_candidate
        (parse : string -> JsDate.TimeValue)
        (fuel : nat) (w : World) (db : Datastore) :
  (maxAttempts <= fuel)%nat ->
  connect_ok w = true ->
  sweep_ok w = true ->
  browser_ok w = true ->
  write_ok w = true ->
  (forall candidates,
      IndexJs.load_listing w = true ->
      IndexJs.collect (listing_dom w) = Ok candidates ->
      exists r arts,
        IndexJs.job parse fuel w db = Some r
        /\ outcome r = Completed
        /\ snapshot r = Some arts
        /\ Forall2 Spec.same_entry arts candidates
        /\ (List.length (final_db r)
            <= List.length (sweep "BBC News" db) + List.length candidates)%nat)
  /\ (forall entries,
         listing_goto_ok w = true ->
         Part000.collect (listing_dom w) = Ok entries ->
         entries <> [] ->
         exists r arts,
           Part000.job fuel w db = Some r
           /\ outcome r = Completed
           /\ snapshot r = Some arts
           /\ Forall2 Spec.same_entry arts (Part000.articlesWithSlugs w entries)
           /\ (List.length (final_db r)
               <= List.length (sweep "BBC News" db) + List.length entries)%nat).
Proof.
  intros Hfuel Hconnect Hsweep Hbrowser Hwrite. split.
  - intros candidates Hload Hcollect.
    rewrite (job_index_closed parse fuel w db Hfuel).
    unfold Props.index_candidates.
    rewrite Hbrowser, Hload, Hcollect. cbn [negb].
    destruct (job_closed_snapshot (Spec.index_filled parse)
                                  (index_filled_same parse)
                                  w candidates db Hconnect Hsweep Hwrite)
      as (arts & Hout & Hsnap & Hsame & Hlen).
    eexists _, arts. split; [reflexivity|]. now repeat split.
  - intros entries Hload Hcollect Hentries.
    rewrite (job_part_closed fuel w db Hfuel).
    unfold Props.part_candidates.
    rewrite Hbrowser, Hload, Hcollect. cbn [negb].
    assert (Hnonempty : (List.length entries =? 0)%nat = false).
    { destruct entries; [congruence | reflexivity]. }
    rewrite Hnonempty.
    destruct (job_closed_snapshot Spec.part_filled part_filled_same
                                  w (Part000.articlesWithSlugs w entries) db
                                  Hconnect Hsweep Hwrite)
      as (arts & Hout & Hsnap & Hsame & Hlen).
    eexists _, arts. split; [reflexivity|].
    split; [exact Hout|]. split; [exact Hsnap|]. split; [exact Hsame|].
    unfold Part000.articlesWithSlugs in Hlen.
    rewrite length_map_indexed in Hlen. exact Hlen.
Qed.

Lemma snapshot_lists_every_candidate_witness :
  exists r arts,
    IndexJs.job Fixture.parse_one 3 Run.fine_world [Run.stale_row] = Some r
    /\ outcome r = Completed
    /\ snapshot r = Some arts
    /\ Forall2 Spec.same_entry arts
               [ Article.candidate "Storm hits coast"
                                   "https://www.bbc.com/news/a1"
                                   "stormhitscoast";
                 Article.candidate "Storm hits coast"
                                   "https://www.bbc.com/news/a2"
                                   "stormhitscoast" ]
    /\ (List.length (final_db r)
        <= List.length (sweep "BBC News" [Run.stale_row]) + 2)%nat.
Proof.
  exact (proj1 (snapshot_lists_every_candidate
                  Fixture.parse_one 3 Run.fine_world [Run.stale_row]
                  (le_n 3) eq_refl eq_refl eq_refl eq_refl)
               _ eq_refl eq_refl).
Defined.

(** X20.  Every row a run leaves in the datastore is either a row that was
    there before or a row with a string in each of its ten columns and the
    tag of this source: the INSERT never writes a [null], and a run never
    writes under another tag.  Both scripts. *)
Theorem inserted_rows_complete
        (parse : string -> JsDate.TimeValue)
        (fuel : nat) (w : World) (db : Datastore) :
  (maxAttempts <= fuel)%nat ->
  (exists r,
      IndexJs.job parse fuel w db = Some r
      /\ forall row,
          In row (final_db r) ->
          In row db
          \/ (Props.row_complete row /\ Row.resource row = Str "BBC News"))
  /\ (exists r,
         Part000.job fuel w db = Some r
         /\ forall row,
             In row (final_db r) ->
             In row db
             \/ (Props.row_complete row /\ Row.resource row = Str "BBC News")).
Proof.
  intros Hfuel. split; eexists.
  - split; [now apply job_index_closed|].
    apply job_closed_rows.
    + apply index_filled_same.
    + apply index_filled_row_complete.
    + apply index_filled_resource.
  - split; [now apply job_part_closed|].
    apply job_closed_rows.
    + apply part_filled_same.
    + apply part_filled_row_complete.
    + apply part_filled_resource.
Qed.

Lemma inserted_rows_complete_witness :
  exists r,
    Part000.job 3 Run.fine_world [Run.other_row; Run.stale_row] = Some r
    /\ forall row,
        In row (final_db r) ->
        In row [Run.other_row; Run.stale_row]
        \/ (Props.row_complete row /\ Row.resource row = Str "BBC News").
Proof.
  exact (proj2 (inserted_rows_complete
                  Fixture.parse_one 3 Run.fine_world
                  [Run.other_row; Run.stale_row] (le_n 3))).
Defined.

Lemma processBody_part_structure_witness :
  JsString.includes (Props.wrapped ["Rain is due."; "Winds ease."])
                    ("<p>" ++ "Winds ease." ++ "</p>").
Proof.
  apply (proj2 (proj2 (processBody_part_structure
                         [] ["Rain is due."; "Winds ease."]
                         (Str "https://www.bbc.com/news/a1") "BBC News"))).
  right. now left.
Defined.

Section RejectedInserts.

Variable attempt : AttemptEnv -> M unit.
Variable filled : AttemptEnv -> Article.t -> Article.t.
Variable seen : AttemptEnv -> Page.
Hypothesis shape : Spec.attempt_shape attempt filled seen.
Hypothesis filled_entry_only :
  forall e a a', Spec.same_entry a' a -> filled e a' = filled e a.
Hypothesis filled_same : forall e a, Spec.same_entry (filled e a) a.

(** When every page loads and every INSERT fails, the article object ends
    as the last attempt filled it in, and no row is written. *)
Lemma visit_inserts_rejected (env : nat -> AttemptEnv) (fuel : nat)
      (a : Article.t) (db : Datastore) (pg : Page) :
  (maxAttempts <= fuel)%nat ->
  (forall k, (k < maxAttempts)%nat ->
             goto_ok (env k) = true /\ insert_ok (env k) = false) ->
  exists l,
    visit attempt env fuel a db pg = Some l
    /\ success l = false
    /\ attempts l = maxAttempts
    /\ store (st l) = db
    /\ art (st l) = filled (env 2) a.
Proof.
  intros Hfuel Hdown.
  destruct (visit_returns attempt filled seen shape env fuel a db pg Hfuel)
    as (l & Hl & Hart & Hstore & Hs & Hn).
  exists l. split; [exact Hl|].
  unfold Spec.outcome in *. cbn [maxAttempts Spec.outcome_from] in *.
  destruct (Hdown 0%nat) as [G0 I0]; [unfold maxAttempts; lia|].
  destruct (Hdown 1%nat) as [G1 I1]; [unfold maxAttempts; lia|].
  destruct (Hdown 2%nat) as [G2 I2]; [unfold maxAttempts; lia|].
  rewrite G0, I0, G1, I1, G2, I2 in *.
  cbn [visited succeeded attempts_made Spec.rows_of] in *.
  rewrite app_nil_r in Hstore.
  split; [exact Hs|]. split; [exact Hn|]. split; [exact Hstore|].
  rewrite Hart. apply filled_entry_only.
  eapply same_entry_trans; apply filled_same.
Qed.

End RejectedInserts.

(** X21.  When every navigation of an entry succeeds and every INSERT
    fails, the loop gives up after 3 attempts and writes no row, yet the
    article object, which the snapshot will hold, has every field filled in
    from the last attempt: the snapshot can hold complete records that are
    not in the datastore.  Both scripts. *)
Theorem rejected_entry_is_filled_in
        (parse : string -> JsDate.TimeValue)
        (env : nat -> AttemptEnv) (fuel : nat) (a : Article.t)
        (db : Datastore) (pg : Page) :
  (maxAttempts <= fuel)%nat ->
  (forall k, (k < maxAttempts)%nat ->
             goto_ok (env k) = true /\ insert_ok (env k) = false) ->
  (exists l,
      visit (IndexJs.attempt parse) env fuel a db pg = Some l
      /\ success l = false
      /\ attempts l = maxAttempts
      /\ store (st l) = db
      /\ Spec.index_record (env 2) a (art (st l)))
  /\ (exists l,
         visit Part000.attempt env fuel a db pg = Some l
         /\ success l = false
         /\ attempts l = maxAttempts
         /\ store (st l) = db
         /\ Spec.part_record (env 2) a (art (st l))).
Proof.
  intros Hfuel Hdown. split.
  - destruct (visit_inserts_rejected
                _ _ _ (attempt_index_shape parse)
                (index_filled_entry_only parse) (index_filled_same parse)
                env fuel a db pg Hfuel Hdown)
      as (l & Hl & Hs & Hn & Hstore & Hart).
    exists l. rewrite Hart.
    split; [exact Hl|]. split; [exact Hs|]. split; [exact Hn|].
    split; [exact Hstore|].
    apply index_filled_record, same_entry_refl.
  - destruct (visit_inserts_rejected
                _ _ _ attempt_part_shape
                part_filled_entry_only part_filled_same
                env fuel a db pg Hfuel Hdown)
      as (l & Hl & Hs & Hn & Hstore & Hart).
    exists l. rewrite Hart.
    split; [exact Hl|]. split; [exact Hs|]. split; [exact Hn|].
    split; [exact Hstore|].
    apply part_filled_record, same_entry_refl.
Qed.

Lemma rejected_entry_is_filled_in_witness :
  (exists l,
      visit (IndexJs.attempt Fixture.parse_one) Run2.datastore_down 3
            Run.storm [Run.other_row] blank_page = Some l
      /\ success l = false
      /\ attempts l = maxAttempts
      /\ store (st l) = [Run.other_row]
      /\ Spec.index_record (Run2.datastore_down 2) Run.storm (art (st l)))
  /\ (exists l,
         visit Part000.attempt Run2.datastore_down 3
               Run.storm [Run.other_row] blank_page = Some l
         /\ success l = false
         /\ attempts l = maxAttempts
         /\ store (st l) = [Run.other_row]
         /\ Spec.part_record (Run2.datastore_down 2) Run.storm (art (st l))).
Proof.
  exact (rejected_entry_is_filled_in
           Fixture.parse_one Run2.datastore_down 3 Run.storm
           [Run.other_row] blank_page (le_n 3)
           (fun _ _ => conj eq_refl eq_refl)).
Defined.

(* ================================================================== *)
(** * Two runs in a row *)
(* ================================================================== *)

Section SecondRun.

Variable filled : AttemptEnv -> Article.t -> Article.t.
Hypothesis filled_same : forall e a, Spec.same_entry (filled e a) a.
Hypothesis filled_resource :
  forall e a, Article.resource (filled e a) = Str "BBC News".

(** The rows of this source after a run that reached its sweep: none when
    the run ended before the loop, and otherwise the rows of the candidates
    of this run that succeeded, one each, in the order of the listing. *)
Lemma job_closed_rows_of_this_source
      (w : World) (reached : Outcome + list Article.t) (db : Datastore) :
  connect_ok w = true ->
  sweep_ok w = true ->
  (forall out, reached = inl out -> Props.ended_early out) ->
  (Props.ended_early (outcome (Props.job_closed filled w reached db)) ->
   filter Spec.of_this_source
          (final_db (Props.job_closed filled w reached db)) = [])
  /\ (forall candidates,
         reached = inr candidates ->
         exists vs,
           Spec.batch_ok
             (visits w) candidates [] vs
             (filter Spec.of_this_source
                     (final_db (Props.job_closed filled w reached db)))).
Proof.
  intros Hconnect Hsweep Hearly. unfold Props.job_closed.
  rewrite Hconnect, Hsweep. cbn [negb].
  destruct reached as [out|candidates].
  - cbn [final_db outcome]. split; [|discriminate].
    intros _. apply sweep_leaves_none_of_this_source.
  - cbn zeta.
    assert (Hrows :
              filter Spec.of_this_source
                     (sweep "BBC News" db
                      ++ Spec.inserted
                           (Spec.outcomes filled (visits w) 0 candidates))%list
              = Spec.inserted (Spec.outcomes filled (visits w) 0 candidates)).
    { rewrite filter_app, sweep_leaves_none_of_this_source.
      apply (filter_this_source_all
               _ (inserted_tagged filled (visits w) filled_same
                                  filled_resource candidates 0)). }
    destruct (write_ok w); cbn [final_db outcome]; rewrite Hrows.
    + split.
      * intros [H | [H | [H | H]]]; discriminate H.
      * intros c [= <-]. eexists.
        exact (outcomes_batch_ok filled (visits w) filled_same candidates []).
    + split.
      * intros [H | [H | [H | H]]]; discriminate H.
      * intros c [= <-]. eexists.
        exact (outcomes_batch_ok filled (visits w) filled_same candidates []).
Qed.

End SecondRun.

Lemma index_candidates_reached (w : World) (candidates : list Article.t) :
  browser_ok w = true ->
  IndexJs.load_listing w = true ->
  IndexJs.collect (listing_dom w) = Ok candidates ->
  Props.index_candidates w = inr candidates.
Proof.
  intros Hbrowser Hload Hcollect. unfold Props.index_candidates.
  now rewrite Hbrowser, Hload, Hcollect.
Qed.

Lemma part_candidates_reached (w : World) (entries : list Part000.Entry) :
  browser_ok w = true ->
  listing_goto_ok w = true ->
  Part000.collect (listing_dom w) = Ok entries ->
  entries <> [] ->
  Props.part_candidates w = inr (Part000.articlesWithSlugs w entries).
Proof.
  intros Hbrowser Hload Hcollect Hentries. unfold Props.part_candidates.
  rewrite Hbrowser, Hload, Hcollect. cbn [negb].
  destruct entries; [congruence | reflexivity].
Qed.



